(** * posledovatelnost: a media-group reordering bot (src/bot.py)

    A shallow embedding of the handlers of [bot.py] and of the part of the
    asyncio event loop they rely on, followed by the properties of the
    specification that were checked against it.

    Conventions of the embedding.
    - The four module-level dictionaries ([user_sessions], [media_cache],
      [group_timers], [warning_cache]) are the fields of one [State] record
      that every handler threads through; dictionaries are [gmap]s.
    - [time.time()] is read once per handler run and is passed in as the
      argument [now]. Clock readings are exact rationals (seconds); float
      rounding is not modelled.
    - Python strings are byte strings here (the UTF-8 encoding of the source
      literals). Character classes are the ASCII ones: decimal digits and
      white space outside ASCII are not modelled, and neither is the limit of
      4300 digits of [int]. [plain_text] marks the texts on which the classes
      and [int] are those of Python; the statements that compare the filter
      of line 161 with [int] are made for such texts.
    - Calls on the messaging client are recorded in a trace of [Action]s, in
      the order they are requested; a client call may raise.
    - Logging is not modelled.
    - Every message has a sender: all handlers read [message.from_user.id]
      unguarded.
    - The event loop is a list of events run in order: an incoming message, a
      run of a debounce task, a sweep of the janitor. Handlers and tasks do not
      interleave inside a step. *)

From Stdlib Require Import ZArith QArith String Ascii List Lia Lqa.
From stdpp Require Import gmap strings list fin_maps sorting pretty.

Close Scope Q_scope.
Open Scope string_scope.
Open Scope Z_scope.
Open Scope list_scope.

(** ** Data *)

(** The fields of [aiogram.types.Message] that the handlers read. A media
    field that is absent on the event is [None]. [photo] lists the file ids of
    the available sizes, smallest first. [date] is the creation time as a POSIX
    timestamp. *)
Record Message := {
  from_user_id : Z;
  chat_id : Z;
  text : option string;
  media_group_id : option string;
  content_type : string;
  photo : option (list string);
  video : option string;
  audio : option string;
  document : option string;
  date : option Q;
}.

(** The dictionary stored in [user_sessions] (lines 119-124). *)
Record Session := {
  files : list string;
  type : string;
  expected_count : Z;
  timestamp : Q;
}.

Inductive InputMedia :=
  | InputMediaPhoto (media : string)
  | InputMediaAudio (media : string)
  | InputMediaVideo (media : string)
  | InputMediaDocument (media : string).

(** What the bot asks of the messaging client: [message.answer(text)], which
    goes to the chat of [message], and [bot.send_media_group]. *)
Inductive Action :=
  | Answer (chat : Z) (body : string)
  | SendMediaGroup (chat : Z) (media : list InputMedia).

(** A task made by [asyncio.create_task(delayed_process(group_id, delay))].
    [Created]: scheduled, its coroutine has not run yet. [Sleeping w]: suspended
    in [asyncio.sleep], to be woken at loop time [w] (in lowest terms). [Cancelling started]:
    [cancel()] was called and the [CancelledError] is still to be delivered;
    [started] tells whether the coroutine had entered its [try] block.
    [Finished]: the coroutine has returned. *)
Inductive Phase :=
  | Created
  | Sleeping (wake : Q)
  | Cancelling (started : bool)
  | Finished.

Record Task := {
  task_group : string;
  task_delay : Q;
  task_phase : Phase;
}.

(** The module-level state (lines 34-37), with the tasks of the event loop;
    a task is named by its position in [tasks]. *)
Record State := {
  user_sessions : gmap Z Session;
  media_cache : gmap string (list Message);
  group_timers : gmap string nat;
  warning_cache : gmap Z Q;
  tasks : list Task;
}.

Definition WARNING_COOLDOWN : Q := 1.5%Q.
Definition SESSION_LIFETIME : Q := 120%Q.

Definition initial_state : State :=
  {| user_sessions := ∅; media_cache := ∅; group_timers := ∅;
     warning_cache := ∅; tasks := [] |}.

Definition set_user_sessions (f : gmap Z Session → gmap Z Session) (st : State) : State :=
  {| user_sessions := f (user_sessions st); media_cache := media_cache st;
     group_timers := group_timers st; warning_cache := warning_cache st;
     tasks := tasks st |}.

Definition set_media_cache (f : gmap string (list Message) → gmap string (list Message))
    (st : State) : State :=
  {| user_sessions := user_sessions st; media_cache := f (media_cache st);
     group_timers := group_timers st; warning_cache := warning_cache st;
     tasks := tasks st |}.

Definition set_group_timers (f : gmap string nat → gmap string nat) (st : State) : State :=
  {| user_sessions := user_sessions st; media_cache := media_cache st;
     group_timers := f (group_timers st); warning_cache := warning_cache st;
     tasks := tasks st |}.

Definition set_warning_cache (f : gmap Z Q → gmap Z Q) (st : State) : State :=
  {| user_sessions := user_sessions st; media_cache := media_cache st;
     group_timers := group_timers st; warning_cache := f (warning_cache st);
     tasks := tasks st |}.

Definition set_tasks (f : list Task → list Task) (st : State) : State :=
  {| user_sessions := user_sessions st; media_cache := media_cache st;
     group_timers := group_timers st; warning_cache := warning_cache st;
     tasks := f (tasks st) |}.

(** ** Handlers as state-passing computations that may raise *)

(** The exceptions the modelled code can raise. The two client failures are
    told apart by the call they come from. *)
Inductive exn :=
  | IndexError
  | TypeError
  | AttributeError
  | AnswerFailed
  | SendFailed.

Inductive Res (A : Type) :=
  | Return (a : A)
  | Raise (e : exn).
Arguments Return {A} a.
Arguments Raise {A} e.

(** A computation takes the state and gives a result or an exception, the
    state it leaves and the client calls it made. *)
Definition M (A : Type) : Type := State → Res A * State * list Action.

Definition ret {A} (a : A) : M A := λ st, (Return a, st, []).

Definition raise {A} (e : exn) : M A := λ st, (Raise e, st, []).

Definition bind {A B} (m : M A) (f : A → M B) : M B := λ st,
  match m st with
  | (Return a, st1, t1) =>
      match f a st1 with
      | (r, st2, t2) => (r, st2, t1 ++ t2)
      end
  | (Raise e, st1, t1) => (Raise e, st1, t1)
  end.

Notation "x <- m ;; k" := (bind m (λ x, k))
  (at level 100, m at next level, right associativity).
Notation "m ;;; k" := (bind m (λ _, k))
  (at level 100, right associativity).

Definition get : M State := λ st, (Return st, st, []).

Definition modify (f : State → State) : M unit := λ st, (Return tt, f st, []).

Definition lift {A} (r : Res A) : M A := λ st, (r, st, []).

(** [try: m except Exception: h] *)
Definition try_except {A} (m : M A) (h : exn → M A) : M A := λ st,
  match m st with
  | (Return a, st1, t1) => (Return a, st1, t1)
  | (Raise e, st1, t1) =>
      match h e st1 with
      | (r, st2, t2) => (r, st2, t1 ++ t2)
      end
  end.

(** [try: m finally: f]: [f] runs in every case; an exception of [m] is raised
    again after it, unless [f] raises itself. *)
Definition try_finally {A} (m : M A) (f : M unit) : M A := λ st,
  match m st with
  | (r, st1, t1) =>
      match f st1 with
      | (Return _, st2, t2) => (r, st2, t1 ++ t2)
      | (Raise e, st2, t2) => (Raise e, st2, t1 ++ t2)
      end
  end.

(** The result, final state and trace of running a computation. *)
Definition result {A} (x : Res A * State * list Action) : Res A := x.1.1.
Definition final {A} (x : Res A * State * list Action) : State := x.1.2.
Definition trace {A} (x : Res A * State * list Action) : list Action := x.2.

(** ** Strings *)

Definition nl : string := String "010"%char "".

(** A decimal digit as [\d] of [re] and [int] see it, within ASCII: 0 to 9.
    The decimal digits of other scripts, which Python takes as well, are not
    digits here. *)
Definition is_digit (c : ascii) : bool :=
  let n := nat_of_ascii c in (48 <=? n)%nat && (n <=? 57)%nat.

(** White space as [str.split] and the [\s] of [re] see it, within ASCII:
    tab, line feed, vertical tab, form feed, carriage return, the four
    separators 0x1c-0x1f and the space. The white space outside ASCII (U+0085,
    U+00A0, U+2000 and the like), which Python takes as well, is none here. *)
Definition is_space (c : ascii) : bool :=
  let n := nat_of_ascii c in
  ((9 <=? n)%nat && (n <=? 13)%nat) || ((28 <=? n)%nat && (n <=? 32)%nat).

Definition digit_value (c : ascii) : Z := Z.of_nat (nat_of_ascii c) - 48.

(** [text.split()]: the maximal runs of characters that are not white space. *)
Fixpoint split (s : string) : list string :=
  match s with
  | EmptyString => []
  | String c r =>
      if is_space c then split r
      else
        match r with
        | EmptyString => [String c ""]
        | String c' _ =>
            if is_space c' then String c "" :: split r
            else
              match split r with
              | t :: ts => String c t :: ts
              | [] => [String c ""]
              end
        end
  end.

(** The digits of [int(x)]: decimal digits, with single underscores allowed
    between two digits. [prev] tells whether the previous character was a
    digit. *)
Fixpoint int_digits (prev : bool) (acc : Z) (s : string) : option Z :=
  match s with
  | EmptyString => if prev then Some acc else None
  | String c r =>
      if is_digit c then int_digits true (10 * acc + digit_value c) r
      else if Ascii.eqb c "_" && prev then int_digits false acc r
      else None
  end.

(** [int(x)] on a token of ASCII characters without white space; [None]
    stands for [ValueError]. The [ValueError] that Python raises on a token of
    more than 4300 digits is not modelled: on such a token this function
    returns the number. *)
Definition int (x : string) : option Z :=
  match x with
  | String "+" r => int_digits false 0 r
  | String "-" r => Z.opp <$> int_digits false 0 r
  | _ => int_digits false 0 x
  end.

(** [[int(x) for x in xs]]: the first token that fails raises. *)
Fixpoint int_all (xs : list string) : option (list Z) :=
  match xs with
  | [] => Some []
  | x :: r =>
      match int x with
      | None => None
      | Some n =>
          match int_all r with
          | None => None
          | Some ns => Some (n :: ns)
          end
      end
  end.

(** [str(i)] for an integer. *)
Definition str (i : Z) : string := pretty i.

(** [sep.join(l)] *)
Definition join (sep : string) (l : list string) : string := String.concat sep l.

(** [re.match] of the pattern of line 161: one or more groups, each made of
    one or more digits followed by optional white space, up to the end. Such a
    text starts with a digit and holds only digits and white space. Digits
    and white space are the ASCII ones: on a text with other characters that
    Python counts as digits or white space this function says no where the
    pattern matches. *)
Fixpoint digits_and_spaces (s : string) : bool :=
  match s with
  | EmptyString => true
  | String c r => (is_digit c || is_space c) && digits_and_spaces r
  end.

Definition order_regexp (s : string) : bool :=
  match s with
  | EmptyString => false
  | String c r => is_digit c && digits_and_spaces r
  end.

(** ** Lists *)

(** [l[i]] with Python's negative indices; [None] stands for [IndexError]. *)
Definition getitem {A} (l : list A) (i : Z) : option A :=
  if decide (0 ≤ i) then l !! Z.to_nat i
  else if decide (- Z.of_nat (length l) ≤ i) then l !! Z.to_nat (Z.of_nat (length l) + i)
  else None.

(** [[files[i - 1] for i in order_numbers]] *)
Fixpoint ordered (files : list string) (order_numbers : list Z) : Res (list string) :=
  match order_numbers with
  | [] => Return []
  | i :: r =>
      match getitem files (i - 1) with
      | None => Raise IndexError
      | Some f =>
          match ordered files r with
          | Return fs => Return (f :: fs)
          | Raise e => Raise e
          end
      end
  end.

(** The file reference of one buffered event, per content type (lines
    108-115). [m.photo[-1]] is the last size; an absent field raises. *)
Definition photo_file_id (m : Message) : Res string :=
  match photo m with
  | None => Raise TypeError
  | Some sizes =>
      match getitem sizes (-1) with
      | None => Raise IndexError
      | Some f => Return f
      end
  end.

Definition field_file_id (field : Message → option string) (m : Message) : Res string :=
  match field m with
  | None => Raise AttributeError
  | Some f => Return f
  end.

Fixpoint collect (get_id : Message → Res string) (messages : list Message) : Res (list string) :=
  match messages with
  | [] => Return []
  | m :: r =>
      match get_id m with
      | Raise e => Raise e
      | Return f =>
          match collect get_id r with
          | Return fs => Return (f :: fs)
          | Raise e => Raise e
          end
      end
  end.

(** The branches of lines 108-117; [None] is the final [else: return]. *)
Definition group_files (content_type : string) (messages : list Message)
    : option (Res (list string)) :=
  if decide (content_type = "photo") then Some (collect photo_file_id messages)
  else if decide (content_type = "video") then Some (collect (field_file_id video) messages)
  else if decide (content_type = "audio") then Some (collect (field_file_id audio) messages)
  else if decide (content_type = "document") then Some (collect (field_file_id document) messages)
  else None.

(** The branches of lines 195-204; [None] is the final [else: return]. *)
Definition input_media (content_type : string) (ordered_files : list string)
    : option (list InputMedia) :=
  if decide (content_type = "photo") then Some (InputMediaPhoto <$> ordered_files)
  else if decide (content_type = "audio") then Some (InputMediaAudio <$> ordered_files)
  else if decide (content_type = "video") then Some (InputMediaVideo <$> ordered_files)
  else if decide (content_type = "document") then Some (InputMediaDocument <$> ordered_files)
  else None.

(** ** The messaging client *)

(** Whether a call on the client raises is up to the platform: a client is
    given by the two predicates that decide it. *)
Record Client := {
  answer_raises : Z → string → bool;
  send_media_group_raises : Z → list InputMedia → bool;
}.

(** A client on which no call fails. *)
Definition reliable : Client :=
  {| answer_raises := λ _ _, false; send_media_group_raises := λ _ _, false |}.

(** A client that refuses every grouped send and delivers every text. *)
Definition refusing : Client :=
  {| answer_raises := λ _ _, false; send_media_group_raises := λ _ _, true |}.

(** ** Replies *)

Definition START_TEXT : string :=
  "Назначим новую последовательность!" +:+ nl +:+
  "Отправьте сообщение с 2–10 файлами одного типа".

Definition HELP_TEXT : string :=
  "<b>Как пользоваться:</b>" +:+ nl +:+ nl +:+
  "1. Отправьте медиагруппу - всё то, что вы загружаете файлом/документом (2–10 вложений <b>одинакового</b> типа: фото, видео, аудио, документы)." +:+ nl +:+
  "2. Бот покажет текущий порядок файлов, а вы назначите новую последовательность." +:+ nl +:+ nl +:+
  "<b>Пример:</b> если файлов 3, введите '3 2 1'." +:+ nl +:+
  "После ввода вы получите файлы в новом порядке одним сообщением, которое остаётся только переслать".

Definition INVALID_GROUP_TEXT : string := "Отправьте 2-10 файлов одного типа".

Definition NO_SESSION_TEXT : string := "Сначала отправьте медиагруппу".

Definition EXPIRED_TEXT : string := "Сессия устарела, отправьте новую медиагруппу".

Definition PARSE_ERROR_TEXT : string := "Введите только числа, разделенные пробелами".

Definition COUNT_MISMATCH_TEXT (expected_count : Z) : string :=
  "Введите числа от 1 до " +:+ str expected_count +:+ " через пробел".

Definition RANGE_ERROR_TEXT (expected_count : Z) : string :=
  "Числа должны быть в диапазоне 1–" +:+ str expected_count.

Definition SEND_ERROR_TEXT : string :=
  "Ошибка при отправке медиагруппы. Попробуйте еще раз".

Definition FALLBACK_TEXT : string := "Некорректная команда. Используйте /help".

(** Lines 126-133: the confirmation for a group of [n] files. *)
Definition order_list (n : nat) : string :=
  join " " ((λ i, str (Z.of_nat i + 1)) <$> seq 0 n).

Definition reverse_list (n : nat) : string :=
  join " " ((λ i, str (Z.of_nat i + 1)) <$> reverse (seq 0 n)).

Definition CONFIRMATION_TEXT (n : nat) : string :=
  "Получено файлов: " +:+ str (Z.of_nat n) +:+ nl +:+ nl +:+
  "Текущий порядок: " +:+ order_list n +:+ nl +:+
  "Введите новую последовательность (например: " +:+ reverse_list n +:+ ")".

(** ** The handlers *)

Section Handlers.

Variable cl : Client.

(** [await message.answer(body)] *)
Definition answer (message : Message) (body : string) : M unit := λ st,
  (if answer_raises cl (chat_id message) body then Raise AnswerFailed else Return tt,
   st, [Answer (chat_id message) body]).

(** [await bot.send_media_group(chat_id=chat, media=media)] *)
Definition send_media_group (chat : Z) (media : list InputMedia) : M unit := λ st,
  (if send_media_group_raises cl chat media then Raise SendFailed else Return tt,
   st, [SendMediaGroup chat media]).

(** Lines 54-71. *)
Definition cmd_start (message : Message) : M unit :=
  let user_id := from_user_id message in
  modify (set_user_sessions (delete user_id)) ;;;
  st <- get ;;
  let gids_to_remove :=
    (List.filter
       (λ item : string * list Message,
          existsb (λ m, bool_decide (from_user_id m = user_id)) item.2)
       (map_to_list (media_cache st))).*1 in
  modify (set_media_cache (λ c, foldl (λ c gid, delete gid c) c gids_to_remove)) ;;;
  answer message START_TEXT.

(** Lines 74-83. *)
Definition cmd_help (message : Message) : M unit :=
  answer message HELP_TEXT.

(** Lines 88-135. The statements of the [try] block that can raise in this
    model are the client calls. *)
Definition process_media_group (now : Q) (group_id : string) : M unit :=
  st <- get ;;
  let messages := default [] (media_cache st !! group_id) in
  modify (set_media_cache (delete group_id)) ;;;
  match messages with
  | [] => ret tt
  | message :: _ =>
      let user_id := from_user_id message in
      let content_types : gset string := list_to_set (content_type <$> messages) in
      if decide ((1 < size content_types)%nat
                 ∨ ¬ (2 ≤ length messages ≤ 10)%nat)
      then try_except (answer message INVALID_GROUP_TEXT) (λ _, ret tt)
      else
        let content_type := content_type message in
        match group_files content_type messages with
        | None => ret tt
        | Some extracted =>
            files <- lift extracted ;;
            modify (set_user_sessions
                      <[user_id := {| files := files;
                                      type := content_type;
                                      expected_count := Z.of_nat (length files);
                                      timestamp := now |}]>) ;;;
            answer message (CONFIRMATION_TEXT (length files))
        end
  end.

(** [task.cancel()]: a task that has finished is left alone; otherwise a
    [CancelledError] is to be thrown into its coroutine when it next runs. *)
Definition cancel (tid : nat) (ts : list Task) : list Task :=
  match ts !! tid with
  | Some t =>
      match task_phase t with
      | Created =>
          <[tid := {| task_group := task_group t; task_delay := task_delay t;
                      task_phase := Cancelling false |}]> ts
      | Sleeping _ =>
          <[tid := {| task_group := task_group t; task_delay := task_delay t;
                      task_phase := Cancelling true |}]> ts
      | Cancelling _ | Finished => ts
      end
  | None => ts
  end.

(** [asyncio.create_task(delayed_process(group_id, delay))]: the new task is
    scheduled and named by the next free position. *)
Definition create_task (group_id : string) (delay : Q) : M nat :=
  st <- get ;;
  modify (set_tasks (λ ts, ts ++ [{| task_group := group_id; task_delay := delay;
                                     task_phase := Created |}])) ;;;
  ret (length (tasks st)).

(** Lines 138-146. [group_id] is [message.media_group_id], a non-empty string
    by the filter of the handler. *)
Definition handle_media_group (group_id : string) (message : Message) : M unit :=
  modify (set_media_cache
            (λ c, <[group_id := default [] (c !! group_id) ++ [message]]> c)) ;;;
  st <- get ;;
  match group_timers st !! group_id with
  | Some tid => modify (set_tasks (cancel tid))
  | None => ret tt
  end ;;;
  tid <- create_task group_id 0.7%Q ;;
  modify (set_group_timers <[group_id := tid]>).

Definition set_phase (tid : nat) (p : Phase) : M unit :=
  modify (set_tasks (λ ts,
    match ts !! tid with
    | Some t => <[tid := {| task_group := task_group t; task_delay := task_delay t;
                            task_phase := p |}]> ts
    | None => ts
    end)).

(** Lines 149-156, one run of the task [tid] by the event loop at time [now].
    - A created task runs up to [await asyncio.sleep(delay)].
    - A sleeping task whose delay has elapsed runs [process_media_group] and the
      [finally] block. The finalisation is taken as one step: what other
      handlers could do while it awaits the client is not modelled.
    - A task cancelled in its sleep gets the [CancelledError] there: the
      [except] clause swallows it and the [finally] block runs.
    - A task cancelled before it ever ran never enters the [try] block.
    An exception that leaves the coroutine ends the task and stays in it. *)
Definition delayed_process (now : Q) (tid : nat) : M unit :=
  st <- get ;;
  match tasks st !! tid with
  | None => ret tt
  | Some t =>
      let group_id := task_group t in
      match task_phase t with
      | Created => set_phase tid (Sleeping (Qred (now + task_delay t)))
      | Sleeping wake =>
          if Qle_bool wake now then
            try_finally
              (try_except
                 (try_finally (process_media_group now group_id)
                    (modify (set_group_timers (delete group_id))))
                 (λ _, ret tt))
              (set_phase tid Finished)
          else ret tt
      | Cancelling true =>
          modify (set_group_timers (delete group_id)) ;;;
          set_phase tid Finished
      | Cancelling false => set_phase tid Finished
      | Finished => ret tt
      end
  end.

(** Lines 161-214. *)
Definition handle_order_input (now : Q) (message : Message) : M unit :=
  let user_id := from_user_id message in
  st <- get ;;
  match user_sessions st !! user_id with
  | None => answer message NO_SESSION_TEXT
  | Some session =>
      if Qlt_le_dec SESSION_LIFETIME (now - timestamp session)%Q then
        modify (set_user_sessions (delete user_id)) ;;;
        answer message EXPIRED_TEXT
      else
        let files := files session in
        let content_type := type session in
        let expected_count := expected_count session in
        match text message with
        | None => raise AttributeError
        | Some t =>
            match int_all (split t) with
            | None => answer message PARSE_ERROR_TEXT
            | Some order_numbers =>
                if decide (Z.of_nat (length order_numbers) ≠ expected_count
                           ∨ Z.of_nat (size (list_to_set order_numbers : gset Z))
                               ≠ expected_count)
                then answer message (COUNT_MISMATCH_TEXT expected_count)
                else if decide (merge_sort Z.le order_numbers ≠ seqZ 1 expected_count)
                then answer message (RANGE_ERROR_TEXT expected_count)
                else
                  ordered_files <- lift (ordered files order_numbers) ;;
                  match input_media content_type ordered_files with
                  | None => ret tt
                  | Some media =>
                      try_finally
                        (try_except (send_media_group user_id media)
                           (λ _, answer message SEND_ERROR_TEXT))
                        (modify (set_user_sessions (delete user_id)))
                  end
            end
        end
  end.

(** The same handler cut at its last [await]. [order_input_until_send] is
    lines 162-204: the handler up to the call of [bot.send_media_group] of
    line 206, where its coroutine is suspended until the client has answered.
    [Some media] is what it is about to send; [None] says that it has
    returned before. [order_input_send] is lines 205-214: the send and what
    follows it. *)
Definition order_input_until_send (now : Q) (message : Message)
    : M (option (list InputMedia)) :=
  let user_id := from_user_id message in
  st <- get ;;
  match user_sessions st !! user_id with
  | None => answer message NO_SESSION_TEXT ;;; ret None
  | Some session =>
      if Qlt_le_dec SESSION_LIFETIME (now - timestamp session)%Q then
        modify (set_user_sessions (delete user_id)) ;;;
        answer message EXPIRED_TEXT ;;;
        ret None
      else
        let files := files session in
        let content_type := type session in
        let expected_count := expected_count session in
        match text message with
        | None => raise AttributeError
        | Some t =>
            match int_all (split t) with
            | None => answer message PARSE_ERROR_TEXT ;;; ret None
            | Some order_numbers =>
                if decide (Z.of_nat (length order_numbers) ≠ expected_count
                           ∨ Z.of_nat (size (list_to_set order_numbers : gset Z))
                               ≠ expected_count)
                then answer message (COUNT_MISMATCH_TEXT expected_count) ;;; ret None
                else if decide (merge_sort Z.le order_numbers ≠ seqZ 1 expected_count)
                then answer message (RANGE_ERROR_TEXT expected_count) ;;; ret None
                else
                  ordered_files <- lift (ordered files order_numbers) ;;
                  ret (input_media content_type ordered_files)
            end
        end
  end.

Definition order_input_send (message : Message) (media : list InputMedia) : M unit :=
  let user_id := from_user_id message in
  try_finally
    (try_except (send_media_group user_id media)
       (λ _, answer message SEND_ERROR_TEXT))
    (modify (set_user_sessions (delete user_id))).

(** Lines 219-228. [warning_cache.get(user_id, 0)] *)
Definition fallback_handler (now : Q) (message : Message) : M unit :=
  let user_id := from_user_id message in
  st <- get ;;
  if Qlt_le_dec (now - default 0%Q (warning_cache st !! user_id))%Q WARNING_COOLDOWN then
    ret tt
  else
    modify (set_warning_cache <[user_id := now]>) ;;;
    answer message FALLBACK_TEXT.

(** Lines 235-242: the body of the loop of [cleanup_cache], one sweep. A group
    is listed when its buffer is not empty and its first message has a date more
    than 30 seconds before [now]. *)
Definition stale (now : Q) (msgs : list Message) : bool :=
  match msgs with
  | [] => false
  | m :: _ =>
      match date m with
      | None => false
      | Some d => if Qlt_le_dec 30%Q (now - d)%Q then true else false
      end
  end.

Definition cleanup_cache (now : Q) : M unit :=
  st <- get ;;
  let expired :=
    (List.filter (λ item : string * list Message, stale now item.2)
       (map_to_list (media_cache st))).*1 in
  modify (set_media_cache (λ c, foldl (λ c gid, delete gid c) c expired)).

(** The filters of the handlers, tried in the order of registration (lines
    54, 74, 138, 161, 219); the first one that passes takes the message. *)
Definition dispatch (now : Q) (message : Message) : M unit :=
  if bool_decide (text message = Some "/start" ∨ text message = Some "↩️ Сбросить")
  then cmd_start message
  else if bool_decide (text message = Some "/help" ∨ text message = Some "🆘 Помощь")
  then cmd_help message
  else
    match media_group_id message with
    | Some (String c r) => handle_media_group (String c r) message
    | _ =>
        match text message with
        | Some t =>
            if order_regexp t then handle_order_input now message
            else fallback_handler now message
        | None => fallback_handler now message
        end
    end.

(** What the event loop runs: a handler for an incoming message, a run of a
    debounce task, or a sweep of the janitor. *)
Inductive Event :=
  | Incoming (now : Q) (message : Message)
  | RunTask (now : Q) (tid : nat)
  | Sweep (now : Q).

Definition run_event (ev : Event) : M unit :=
  match ev with
  | Incoming now message => dispatch now message
  | RunTask now tid => delayed_process now tid
  | Sweep now => cleanup_cache now
  end.

(** The events in order. An exception that leaves a handler is caught by the
    dispatcher and does not stop the loop. *)
Fixpoint run (evs : list Event) (st : State) : State * list Action :=
  match evs with
  | [] => (st, [])
  | ev :: rest =>
      match run_event ev st with
      | (_, st1, t1) =>
          match run rest st1 with
          | (st2, t2) => (st2, t1 ++ t2)
          end
      end
  end.

End Handlers.

(** ** Predicates of the statements *)

(** A session is live at [now] when the guard of line 170 lets it through. *)
Definition live (now : Q) (s : Session) : Prop :=
  (now - timestamp s <= SESSION_LIFETIME)%Q.

(** The wrapper that lines 195-202 choose for a content type. *)
Definition constructor_of (content_type : string) : option (string → InputMedia) :=
  if decide (content_type = "photo") then Some InputMediaPhoto
  else if decide (content_type = "audio") then Some InputMediaAudio
  else if decide (content_type = "video") then Some InputMediaVideo
  else if decide (content_type = "document") then Some InputMediaDocument
  else None.

(** What [process_media_group] stores: one of the four content types, as many
    files as the expected count says, and between 2 and 10 of them. *)
Definition session_wf (s : Session) : Prop :=
  is_Some (constructor_of (type s))
  ∧ expected_count s = Z.of_nat (length (files s))
  ∧ (2 ≤ length (files s) ≤ 10)%nat.

(** The session that lines 119-124 store for the files [fs]. *)
Definition new_session (now : Q) (content_type : string) (fs : list string) : Session :=
  {| files := fs; type := content_type;
     expected_count := Z.of_nat (length fs); timestamp := now |}.

(** The check of line 98, in words: the buffered events share one content type
    and there are between 2 and 10 of them. *)
Definition valid_group (messages : list Message) : Prop :=
  (∀ m m', m ∈ messages → m' ∈ messages → content_type m = content_type m')
  ∧ (2 ≤ length messages ≤ 10)%nat.

(** The tasks of a group that are still to run [process_media_group]: those
    scheduled or asleep. *)
Definition is_live (gid : string) (t : Task) : bool :=
  bool_decide (task_group t = gid)
  && match task_phase t with
     | Created | Sleeping _ => true
     | Cancelling _ | Finished => false
     end.

Definition live_timers (gid : string) (st : State) : list nat :=
  (List.filter (λ it : nat * Task, is_live gid it.2) (imap pair (tasks st))).*1.

Fixpoint all_digits (s : string) : bool :=
  match s with
  | EmptyString => true
  | String c r => is_digit c && all_digits r
  end.

(** A token made of digits only, and at least one. *)
Definition digit_token (tok : string) : Prop :=
  ∃ c r, tok = String c r ∧ is_digit c = true ∧ all_digits r = true.

(** Every stored session is one that [process_media_group] made. *)
Definition sessions_wf (st : State) : Prop :=
  map_Forall (λ _ s, session_wf s) (user_sessions st).

(** How a handler may change the sessions: not at all, by removing one, or by
    storing a well-formed one. *)
Inductive sessions_step (st st' : State) : Prop :=
  | sessions_same : user_sessions st' = user_sessions st → sessions_step st st'
  | sessions_removed (u : Z) :
      user_sessions st' = delete u (user_sessions st) → sessions_step st st'
  | sessions_stored (u : Z) (s : Session) :
      session_wf s → user_sessions st' = <[u := s]> (user_sessions st) →
      sessions_step st st'.

(** ** Test data *)

(** Some test data: three photos of user 7, each in two sizes. *)
Definition photo_message (file : string) (sent : Q) : Message :=
  {| from_user_id := 7; chat_id := 7; text := None; media_group_id := Some "G";
     content_type := "photo"; photo := Some ["small_" +:+ file; file];
     video := None; audio := None; document := None; date := Some sent |}.

(** An event of a content type outside the four. *)
Definition animation_message (sent : Q) : Message :=
  {| from_user_id := 7; chat_id := 7; text := None; media_group_id := Some "G";
     content_type := "animation"; photo := None; video := None; audio := None;
     document := None; date := Some sent |}.

Definition text_message (body : string) : Message :=
  {| from_user_id := 7; chat_id := 7; text := Some body; media_group_id := None;
     content_type := "text"; photo := None; video := None; audio := None;
     document := None; date := Some 100%Q |}.

Definition three_photos : Session :=
  {| files := ["file1"; "file2"; "file3"]; type := "photo"; expected_count := 3;
     timestamp := 100%Q |}.

Definition with_session (s : Session) : State :=
  set_user_sessions <[7 := s]> initial_state.

(** Three photos buffered under the group id G. *)
Definition burst : list Message :=
  [photo_message "file1" 0%Q; photo_message "file2" 0.3%Q; photo_message "file3" 0.6%Q].

Definition with_group (messages : list Message) : State :=
  set_media_cache <["G" := messages]> initial_state.

(** Three photos of one group arrive at 0, 0.3 and 0.6 seconds. After each
    arrival the loop runs what became ready: the task that was cancelled, then
    the task that was created. *)
Definition three_arrivals : list Event :=
  [ Incoming 0%Q (photo_message "file1" 0%Q);
    RunTask 0%Q 0;
    Incoming 0.3%Q (photo_message "file2" 0.3%Q);
    RunTask 0.3%Q 0;
    RunTask 0.3%Q 1;
    Incoming 0.6%Q (photo_message "file3" 0.6%Q);
    RunTask 0.6%Q 2 ].

(** The same burst followed by a fourth photo at 1.2 seconds, less than the
    delay after the third, with the timers firing when they are due. *)
Definition four_arrivals : list Event :=
  three_arrivals ++
  [ RunTask 1%Q 1;
    Incoming 1.2%Q (photo_message "file4" 1.2%Q);
    RunTask 1.2%Q 3;
    RunTask 1.3%Q 2;
    RunTask 1.9%Q 3 ].

(** * Further notions of the statements *)

(** A text of ASCII characters only. *)
Fixpoint ascii_text (s : string) : bool :=
  match s with
  | EmptyString => true
  | String c r => (nat_of_ascii c <? 128)%nat && ascii_text r
  end.

(** The default of [sys.get_int_max_str_digits()]: [int] raises [ValueError]
    on a token of more digits. *)
Definition int_max_str_digits : nat := 4300.

(** The texts on which [is_digit], [is_space], [split], [order_regexp] and
    [int] are those of Python: ASCII characters only, and too short to hold a
    token over the digit limit of [int]. A Telegram text has at most 4096
    characters. *)
Definition plain_text (s : string) : bool :=
  ascii_text s && (String.length s <=? int_max_str_digits)%nat.

(** The file that an item of a Telegram album carries: for a photo the last
    (largest) of its sizes, for a video, an audio or a document the file of
    that field. Other content types do not occur in albums. *)
Definition album_file (m : Message) : option string :=
  if decide (content_type m = "photo") then photo m ≫= last
  else if decide (content_type m = "video") then video m
  else if decide (content_type m = "audio") then audio m
  else if decide (content_type m = "document") then document m
  else None.

(** A message as Telegram delivers the items of an album: a photo, a video,
    an audio or a document, with its file. *)
Definition album_item (m : Message) : Prop := is_Some (album_file m).

(** No character of [s] is white space. *)
Fixpoint no_space (s : string) : bool :=
  match s with
  | EmptyString => true
  | String c r => negb (is_space c) && no_space r
  end.

(** A word is a string that is not empty and holds no white space. *)
Definition word (s : string) : Prop := s ≠ "" ∧ no_space s = true.

(** Line 62: [any(m.from_user.id == user_id for m in msgs)]. *)
Definition from_user (u : Z) (msgs : list Message) : bool :=
  existsb (λ m, bool_decide (from_user_id m = u)) msgs.

(** The task [t] once its coroutine has returned. *)
Definition finished (t : Task) : Task :=
  {| task_group := task_group t; task_delay := task_delay t; task_phase := Finished |}.

(** The messages of one group handled one after the other, with no task run
    in between. *)
Definition arrive (gid : string) (msgs : list Message) (st : State) : State :=
  foldl (λ st m, final (handle_media_group gid m st)) st msgs.

(** The task that line 146 creates for the group [gid]. *)
Definition armed (gid : string) : Task :=
  {| task_group := gid; task_delay := 0.7%Q; task_phase := Created |}.

(** The state of a group with one armed timer: the last task, registered in
    [group_timers], all earlier tasks of the group being out of the race. *)
Definition single_timer (gid : string) (buf : list Message) (n : nat) (st : State) : Prop :=
  ∃ ts0, tasks st = ts0 ++ [armed gid]
    ∧ S (length ts0) = n
    ∧ Forall (λ t, is_live gid t = false) ts0
    ∧ group_timers st !! gid = Some (length ts0)
    ∧ media_cache st !! gid = Some buf.

(** * Properties *)

(** ** The helpers on concrete inputs *)

Example split_example : split " 3  1 2 " = ["3"; "1"; "2"].
Proof. reflexivity. Qed.

Example int_examples :
  int "12" = Some 12 ∧ int "007" = Some 7 ∧ int "1_0" = Some 10 ∧ int "-4" = Some (-4)
  ∧ int "x" = None ∧ int "1__0" = None ∧ int "" = None ∧ int "2_" = None.
Proof. repeat split; reflexivity. Qed.

Example str_examples : str 10 = "10" ∧ str 0 = "0" ∧ str (-3) = "-3".
Proof. repeat split; vm_compute; reflexivity. Qed.

Example getitem_examples :
  getitem ["a"; "b"; "c"] 0 = Some "a" ∧ getitem ["a"; "b"; "c"] (-1) = Some "c"
  ∧ getitem ["a"; "b"; "c"] 3 = None ∧ getitem ["a"; "b"; "c"] (-4) = None.
Proof. repeat split; reflexivity. Qed.

Example confirmation_3 :
  order_list 3 = "1 2 3" ∧ reverse_list 3 = "3 2 1".
Proof. split; vm_compute; reflexivity. Qed.

(** ** Auxiliary facts *)

Lemma lookup_foldl_delete {V} (l : list string) (c : gmap string V) (k : string) :
  foldl (λ c gid, delete gid c) c l !! k = if decide (k ∈ l) then None else c !! k.
Proof.
  revert c. induction l as [|g l IH]; intros c; cbn [foldl].
  - destruct (decide (k ∈ [])) as [Hin|_]; [by apply elem_of_nil in Hin|done].
  - rewrite IH. destruct (decide (k ∈ l)) as [Hin|Hin].
    + rewrite decide_True by (by right). done.
    + destruct (decide (k = g)) as [->|Hne].
      * rewrite lookup_delete_eq. rewrite decide_True by (by left). done.
      * rewrite lookup_delete_ne by done.
        rewrite decide_False; [done|]. by intros [?|?]%elem_of_cons.
Qed.

Lemma elem_of_selected {V} (f : list V → bool) (c : gmap string (list V)) (k : string) :
  k ∈ (List.filter (λ item : string * list V, f item.2) (map_to_list c)).*1
  ↔ ∃ msgs, c !! k = Some msgs ∧ f msgs = true.
Proof.
  rewrite list_elem_of_fmap. split.
  - intros [[g msgs] [-> Hin]]. rewrite list_elem_of_In, filter_In in Hin.
    destruct Hin as [Hin Hf].
    rewrite <- list_elem_of_In, elem_of_map_to_list in Hin. by exists msgs.
  - intros (msgs & Hk & Hf). exists (k, msgs). split; [done|].
    rewrite list_elem_of_In, filter_In. split; [|done].
    by rewrite <- list_elem_of_In, elem_of_map_to_list.
Qed.

(** The cache after a sweep, entry by entry. *)
Lemma cleanup_cache_lookup (now : Q) (st : State) (gid : string) :
  media_cache (final (cleanup_cache now st)) !! gid =
    match media_cache st !! gid with
    | Some msgs => if stale now msgs then None else Some msgs
    | None => None
    end.
Proof.
  unfold cleanup_cache, final, bind, get, modify. simpl.
  rewrite lookup_foldl_delete. case_decide as Hin.
  - apply elem_of_selected in Hin as (msgs & -> & ->). done.
  - destruct (media_cache st !! gid) as [msgs|] eqn:Hg; [|done].
    destruct (stale now msgs) eqn:Hs; [|done].
    exfalso. apply Hin, elem_of_selected. by exists msgs.
Qed.

Lemma stale_spec (now : Q) (msgs : list Message) :
  stale now msgs = true
  ↔ ∃ m rest d, msgs = m :: rest ∧ date m = Some d ∧ (30 < now - d)%Q.
Proof.
  unfold stale. split.
  - destruct msgs as [|m rest]; [done|]. destruct (date m) as [d|] eqn:Hd; [|done].
    destruct (Qlt_le_dec 30 (now - d)) as [Hlt|Hle]; [|done].
    intros _. by exists m, rest, d.
  - intros (m & rest & d & -> & -> & Hlt).
    destruct (Qlt_le_dec 30 (now - d)) as [_|Hle]; [done|].
    exfalso. by apply (Qlt_not_le _ _ Hlt).
Qed.

Lemma state_eq (s1 s2 : State) :
  user_sessions s1 = user_sessions s2 → media_cache s1 = media_cache s2 →
  group_timers s1 = group_timers s2 → warning_cache s1 = warning_cache s2 →
  tasks s1 = tasks s2 → s1 = s2.
Proof. destruct s1, s2; simpl; congruence. Qed.

(** ** The janitor *)

(** C8. One sweep of the janitor removes from the buffer exactly the groups
    whose first buffered message carries a creation time that lies more than
    30 seconds before the sweep; a group whose first message has no creation
    time stays; every group that stays keeps its buffer; sessions, timers,
    throttle and tasks are untouched, the sweep asks nothing of the client and
    raises nothing. *)
Theorem cleanup_cache_evicts_exactly_stale (now : Q) (st : State) :
  let st' := final (cleanup_cache now st) in
  (∀ gid msgs, media_cache st !! gid = Some msgs →
     (media_cache st' !! gid = None
      ↔ ∃ m rest d, msgs = m :: rest ∧ date m = Some d ∧ (30 < now - d)%Q)
     ∧ (media_cache st' !! gid = None ∨ media_cache st' !! gid = Some msgs))
  ∧ (∀ gid m rest, media_cache st !! gid = Some (m :: rest) → date m = None →
       media_cache st' !! gid = Some (m :: rest))
  ∧ (∀ gid, media_cache st !! gid = None → media_cache st' !! gid = None)
  ∧ user_sessions st' = user_sessions st
  ∧ group_timers st' = group_timers st
  ∧ warning_cache st' = warning_cache st
  ∧ tasks st' = tasks st
  ∧ trace (cleanup_cache now st) = []
  ∧ result (cleanup_cache now st) = Return tt.
Proof.
  intros st'. split_and!; try done.
  - intros gid msgs Hg. unfold st'. rewrite cleanup_cache_lookup, Hg.
    rewrite <- stale_spec. destruct (stale now msgs); split; auto; split; done.
  - intros gid m rest Hg Hd. unfold st'. rewrite cleanup_cache_lookup, Hg.
    simpl. by rewrite Hd.
  - intros gid Hg. unfold st'. by rewrite cleanup_cache_lookup, Hg.
Qed.

(** C9. A second sweep at the same clock reading, with nothing arriving in
    between, changes nothing: the state after two sweeps is the state after
    one. *)
Theorem cleanup_cache_idempotent (now : Q) (st : State) :
  final (cleanup_cache now (final (cleanup_cache now st)))
  = final (cleanup_cache now st).
Proof.
  apply state_eq; try done.
  apply map_eq. intros gid. rewrite !cleanup_cache_lookup.
  destruct (media_cache st !! gid) as [msgs|]; [|done].
  destruct (stale now msgs) eqn:Hs; [done|]. by rewrite Hs.
Qed.

(** ** The order-input handler *)

Ltac unfold_monad :=
  unfold bind, get, modify, ret, raise, lift, try_except, try_finally,
    answer, send_media_group, final, trace, result.

(** C10. When the sender has no session in the store, the order-input handler
    asks for the one reply that tells them to send a media group first, and
    leaves the whole state as it was: no session appears or disappears, no
    buffer or timer is touched, no grouped send is requested. *)
Theorem handle_order_input_no_session (cl : Client) (now : Q) (message : Message)
    (st : State) :
  user_sessions st !! from_user_id message = None →
  final (handle_order_input cl now message st) = st
  ∧ trace (handle_order_input cl now message st)
    = [Answer (chat_id message) NO_SESSION_TEXT].
Proof.
  intros Hnone. unfold handle_order_input. unfold_monad. simpl.
  rewrite Hnone. simpl. done.
Qed.

Lemma handle_order_input_no_session_witness :
  user_sessions initial_state !! from_user_id (text_message "2 1") = None
  ∧ final (handle_order_input reliable 100%Q (text_message "2 1") initial_state)
    = initial_state
  ∧ trace (handle_order_input reliable 100%Q (text_message "2 1") initial_state)
    = [Answer 7 NO_SESSION_TEXT].
Proof.
  split; [reflexivity|].
  apply (handle_order_input_no_session reliable 100%Q (text_message "2 1") initial_state).
  reflexivity.
Defined.

(** C4. A session whose age at the time of the order input exceeds 120
    seconds is not used: the handler removes it from the store, asks for the
    one reply that says the session expired, requests no grouped send and
    changes nothing else. A session made at [t] and queried at [t + 121] is
    such a session. *)
Theorem handle_order_input_expired (cl : Client) (now : Q) (message : Message)
    (st : State) (s : Session) :
  user_sessions st !! from_user_id message = Some s →
  (now - timestamp s > 120)%Q →
  final (handle_order_input cl now message st)
  = set_user_sessions (delete (from_user_id message)) st
  ∧ user_sessions (final (handle_order_input cl now message st))
      !! from_user_id message = None
  ∧ trace (handle_order_input cl now message st)
    = [Answer (chat_id message) EXPIRED_TEXT].
Proof.
  intros Hs Hold. unfold handle_order_input. unfold_monad. simpl.
  rewrite Hs. simpl.
  destruct (Qlt_le_dec SESSION_LIFETIME (now - timestamp s)) as [_|Hle].
  - simpl. split_and!; try done. apply lookup_delete_eq.
  - exfalso. apply (Qlt_not_le _ _ Hold). exact Hle.
Qed.

Lemma handle_order_input_expired_witness :
  let st := with_session three_photos in
  let now := (timestamp three_photos + 121)%Q in
  user_sessions (final (handle_order_input reliable now (text_message "3 1 2") st)) !! 7
  = None
  ∧ trace (handle_order_input reliable now (text_message "3 1 2") st)
    = [Answer 7 EXPIRED_TEXT].
Proof.
  intros st now.
  apply (handle_order_input_expired reliable now (text_message "3 1 2") st three_photos).
  - reflexivity.
  - reflexivity.
Defined.

Lemma int_all_None (xs : list string) :
  int_all xs = None ↔ ∃ x, x ∈ xs ∧ int x = None.
Proof.
  induction xs as [|x xs IH]; simpl.
  - split; [done|]. intros (x & Hx & _). by apply elem_of_nil in Hx.
  - destruct (int x) as [n|] eqn:Hx.
    + destruct (int_all xs) as [ns|].
      * split; [done|]. intros (y & [->|Hy]%elem_of_cons & Hnone); [congruence|].
        destruct IH as [_ IH]. discriminate IH. eauto.
      * split; [|done]. intros _. destruct IH as [IH _].
        destruct IH as (y & Hy & Hnone); [done|]. exists y. split; [by right|done].
    + split; [|done]. intros _. exists x. split; [by left|done].
Qed.

(** Entering the handler with a live session and a text: what is left is the
    parsing and validation of lines 179-214. *)
Ltac enter_live Hs Hlive Ht :=
  unfold handle_order_input; unfold_monad; simpl;
  rewrite Hs; simpl;
  match goal with
  | |- context [Qlt_le_dec SESSION_LIFETIME ?d] =>
      destruct (Qlt_le_dec SESSION_LIFETIME d) as [Hlt|_];
      [exfalso; apply (Qlt_not_le _ _ Hlt); exact Hlive|]
  end;
  rewrite Ht; simpl.

(** ** Facts on the three checks of the validator (lines 185-191) *)

Lemma size_list_to_set_le (l : list Z) :
  (size (list_to_set l : gset Z) ≤ length l)%nat.
Proof.
  induction l as [|x l IH].
  - rewrite list_to_set_nil, size_empty. done.
  - rewrite list_to_set_cons; cbn [length]. rewrite size_union_alt.
    rewrite size_singleton.
    assert (size (list_to_set l ∖ {[x]} : gset Z) ≤ size (list_to_set l : gset Z))%nat.
    { apply subseteq_size. apply subseteq_difference_l. done. }
    lia.
Qed.

(** [len(set(l)) == len(l)] says that no number is repeated. *)
Lemma size_list_to_set_NoDup (l : list Z) :
  size (list_to_set l : gset Z) = length l ↔ NoDup l.
Proof.
  split; [|apply size_list_to_set].
  induction l as [|x l IH]; intros Hsize; [constructor|].
  rewrite list_to_set_cons in Hsize; cbn [length] in Hsize.
  destruct (decide (x ∈ l)) as [Hin|Hnin].
  - exfalso.
    assert ({[x]} ∪ list_to_set l = (list_to_set l : gset Z)) as Heq.
    { apply subseteq_union_1_L, singleton_subseteq_l, elem_of_list_to_set. done. }
    rewrite Heq in Hsize. pose proof (size_list_to_set_le l). lia.
  - constructor; [done|]. apply IH.
    rewrite size_union in Hsize.
    + rewrite size_singleton in Hsize. lia.
    + apply disjoint_singleton_l. rewrite elem_of_list_to_set. done.
Qed.

Lemma Sorted_seqZ (m n : Z) : Sorted Z.le (seqZ m n).
Proof.
  destruct (decide (n ≤ 0)) as [Hn|Hn].
  { rewrite seqZ_nil by lia. constructor. }
  remember (Z.to_nat n) as k eqn:Hk. revert m n Hn Hk.
  induction k as [|k IH]; intros m n Hn Hk; [lia|].
  rewrite seqZ_cons by lia. constructor.
  - destruct (decide (Z.pred n ≤ 0)).
    + rewrite seqZ_nil by lia. constructor.
    + apply IH; lia.
  - destruct (decide (Z.pred n ≤ 0)).
    + rewrite seqZ_nil by lia. constructor.
    + rewrite seqZ_cons by lia. constructor. lia.
Qed.

(** [sorted(l) == list(range(1, n + 1))] says that [l] is a permutation of
    1..n. *)
Lemma sorted_is_range (l : list Z) (n : Z) :
  merge_sort Z.le l = seqZ 1 n ↔ l ≡ₚ seqZ 1 n.
Proof.
  split.
  - intros <-. symmetry. apply merge_sort_Permutation.
  - intros Hp. apply (Sorted_unique Z.le).
    + apply Sorted_merge_sort. apply _.
    + apply Sorted_seqZ.
    + by rewrite merge_sort_Permutation.
Qed.

(** A permutation of 1..n passes the count check and the duplicate check. *)
Lemma permutation_counts (l : list Z) (n : Z) :
  0 ≤ n → l ≡ₚ seqZ 1 n →
  Z.of_nat (length l) = n ∧ Z.of_nat (size (list_to_set l : gset Z)) = n.
Proof.
  intros Hn Hp.
  assert (length l = Z.to_nat n) as Hlen by (by rewrite Hp, length_seqZ).
  assert (NoDup l) as Hnd by (rewrite Hp; apply NoDup_seqZ).
  apply size_list_to_set_NoDup in Hnd. lia.
Qed.

(** C6 (as amended). With a live session of expected count N, an order input
    that parses to integers whose sorted sequence is not 1..N is refused: the
    whole state (the session included) stays as it was and the handler asks for
    one reply and no grouped send. The reply is the range-error text when the
    input holds exactly N integers, all different, and the count-mismatch text
    otherwise. *)
Theorem handle_order_input_not_a_permutation (cl : Client) (now : Q)
    (message : Message) (st : State) (s : Session) (t : string)
    (order_numbers : list Z) :
  user_sessions st !! from_user_id message = Some s →
  live now s →
  text message = Some t →
  int_all (split t) = Some order_numbers →
  merge_sort Z.le order_numbers ≠ seqZ 1 (expected_count s) →
  final (handle_order_input cl now message st) = st
  ∧ trace (handle_order_input cl now message st)
    = [Answer (chat_id message)
         (if decide (Z.of_nat (length order_numbers) = expected_count s
                     ∧ NoDup order_numbers)
          then RANGE_ERROR_TEXT (expected_count s)
          else COUNT_MISMATCH_TEXT (expected_count s))].
Proof.
  intros Hs Hlive Ht Hparse Hsorted.
  enter_live Hs Hlive Ht. rewrite Hparse.
  destruct (decide (Z.of_nat (length order_numbers) ≠ expected_count s
                    ∨ Z.of_nat (size (list_to_set order_numbers : gset Z))
                        ≠ expected_count s)) as [Hbad|Hgood].
  - simpl. rewrite decide_False; [done|].
    intros [Hlen Hnd]. apply size_list_to_set_NoDup in Hnd.
    destruct Hbad as [Hbad|Hbad]; apply Hbad; lia.
  - assert (Z.of_nat (length order_numbers) = expected_count s) as Hlen
      by (destruct (decide (Z.of_nat (length order_numbers) = expected_count s));
          [done|exfalso; auto]).
    assert (Z.of_nat (size (list_to_set order_numbers : gset Z)) = expected_count s)
      as Hsize
      by (destruct (decide (Z.of_nat (size (list_to_set order_numbers : gset Z))
                            = expected_count s)); [done|exfalso; auto]).
    rewrite decide_True by done. simpl. rewrite decide_True; [done|].
    split; [done|]. apply size_list_to_set_NoDup. lia.
Qed.

Lemma handle_order_input_not_a_permutation_witness :
  let st := with_session three_photos in
  final (handle_order_input reliable 130%Q (text_message "1 2 4") st) = st
  ∧ trace (handle_order_input reliable 130%Q (text_message "1 2 4") st)
    = [Answer 7 (RANGE_ERROR_TEXT 3)].
Proof.
  intros st.
  apply (handle_order_input_not_a_permutation reliable 130%Q
           (text_message "1 2 4") st three_photos "1 2 4" [1; 2; 4]).
  - reflexivity.
  - unfold live. vm_compute. discriminate.
  - reflexivity.
  - reflexivity.
  - vm_compute. discriminate.
Defined.

(** C6 as stated fails when the count check refuses the input first: with
    three files, the input 1 2 sorts to a sequence other than 1..3, and the
    reply is the count-mismatch text, which is not the range-error text. *)
Lemma range_error_claim_fails_on_short_input :
  int_all (split "1 2") = Some [1; 2]
  ∧ merge_sort Z.le [1; 2] ≠ seqZ 1 (expected_count three_photos)
  ∧ trace (handle_order_input reliable 130%Q (text_message "1 2")
             (with_session three_photos))
    = [Answer 7 (COUNT_MISMATCH_TEXT 3)]
  ∧ COUNT_MISMATCH_TEXT 3 ≠ RANGE_ERROR_TEXT 3.
Proof.
  split_and!.
  - reflexivity.
  - vm_compute. discriminate.
  - vm_compute. reflexivity.
  - vm_compute. discriminate.
Qed.

(** ** The send step *)

Lemma input_media_constructor (content_type : string) (l : list string) :
  input_media content_type l = (λ wrap, wrap <$> l) <$> constructor_of content_type.
Proof.
  unfold input_media, constructor_of. repeat case_decide; reflexivity.
Qed.

(** Indexing with numbers between 1 and the number of files never raises and
    picks the files at those 1-based positions, in the order of the numbers. *)
Lemma ordered_in_range (files : list string) (order_numbers : list Z) :
  Forall (λ i, 1 ≤ i ≤ Z.of_nat (length files)) order_numbers →
  ∃ items, ordered files order_numbers = Return items
    ∧ Forall2 (λ i f, files !! Z.to_nat (i - 1) = Some f) order_numbers items.
Proof.
  induction 1 as [|i r Hi _ (items & Hitems & Hall)]; simpl.
  - exists []. split; [done|constructor].
  - unfold getitem. rewrite decide_True by lia.
    destruct (files !! Z.to_nat (i - 1)) as [f|] eqn:Hf.
    + rewrite Hitems. exists (f :: items). split; [done|]. by constructor.
    + apply lookup_ge_None in Hf. lia.
Qed.

(** The handler from the send step on: with a live session and an input that
    passed the three checks, the indexing and the choice of a wrapper, the
    handler asks for the grouped send, asks for the retry reply when that send
    raises, and removes the session in both cases. *)
Lemma handle_order_input_send (cl : Client) (now : Q) (message : Message)
    (st : State) (s : Session) (t : string) (order_numbers : list Z)
    (items : list string) (media : list InputMedia) :
  user_sessions st !! from_user_id message = Some s →
  live now s →
  text message = Some t →
  int_all (split t) = Some order_numbers →
  Z.of_nat (length order_numbers) = expected_count s →
  Z.of_nat (size (list_to_set order_numbers : gset Z)) = expected_count s →
  merge_sort Z.le order_numbers = seqZ 1 (expected_count s) →
  ordered (files s) order_numbers = Return items →
  input_media (type s) items = Some media →
  handle_order_input cl now message st =
    (if send_media_group_raises cl (from_user_id message) media
     then (if answer_raises cl (chat_id message) SEND_ERROR_TEXT
           then Raise AnswerFailed else Return tt)
     else Return tt,
     set_user_sessions (delete (from_user_id message)) st,
     SendMediaGroup (from_user_id message) media ::
       (if send_media_group_raises cl (from_user_id message) media
        then [Answer (chat_id message) SEND_ERROR_TEXT] else [])).
Proof.
  intros Hs Hlive Ht Hparse Hlen Hsize Hsorted Hord Hmedia.
  unfold handle_order_input; unfold_monad; simpl.
  rewrite Hs; simpl.
  destruct (Qlt_le_dec SESSION_LIFETIME (now - timestamp s)) as [Hlt|_];
    [exfalso; apply (Qlt_not_le _ _ Hlt); exact Hlive|].
  rewrite Ht; simpl. rewrite Hparse.
  rewrite decide_False by (intros [?|?]; done).
  rewrite decide_False by (intros ?; done).
  rewrite Hord. simpl. rewrite Hmedia.
  destruct (send_media_group_raises cl (from_user_id message) media); simpl.
  - destruct (answer_raises cl (chat_id message) SEND_ERROR_TEXT); reflexivity.
  - reflexivity.
Qed.

(** C1. With a live session whose files number N and whose content type is
    one of the four, an input that parses to a permutation P of 1..N makes the
    handler ask for one grouped send to the sender whose items are the files at
    the 1-based positions P, in the order of P, each wrapped for the content
    type of the session; nothing is asked of the client before that send, the
    only request after it is the retry reply when the send raises, and the
    session is removed from the store. *)
Theorem handle_order_input_sends_permuted (cl : Client) (now : Q)
    (message : Message) (st : State) (s : Session) (t : string) (P : list Z) :
  user_sessions st !! from_user_id message = Some s →
  live now s →
  session_wf s →
  text message = Some t →
  int_all (split t) = Some P →
  P ≡ₚ seqZ 1 (Z.of_nat (length (files s))) →
  ∃ wrap items,
    constructor_of (type s) = Some wrap
    ∧ Forall2 (λ i f, files s !! Z.to_nat (i - 1) = Some f) P items
    ∧ trace (handle_order_input cl now message st)
      = SendMediaGroup (from_user_id message) (wrap <$> items) ::
          (if send_media_group_raises cl (from_user_id message) (wrap <$> items)
           then [Answer (chat_id message) SEND_ERROR_TEXT] else [])
    ∧ final (handle_order_input cl now message st)
      = set_user_sessions (delete (from_user_id message)) st
    ∧ user_sessions (final (handle_order_input cl now message st))
        !! from_user_id message = None.
Proof.
  intros Hs Hlive ([wrap Hwrap] & Hcount & _) Ht Hparse Hperm.
  rewrite <- Hcount in Hperm.
  destruct (permutation_counts P (expected_count s)) as [Hlen Hsize];
    [lia|done|].
  destruct (ordered_in_range (files s) P) as (items & Hord & Hitems).
  { apply Forall_forall. intros i Hi. rewrite Hperm in Hi.
    apply elem_of_seqZ in Hi. lia. }
  exists wrap, items.
  assert (input_media (type s) items = Some (wrap <$> items)) as Hmedia
    by (by rewrite input_media_constructor, Hwrap).
  rewrite (handle_order_input_send cl now message st s t P items (wrap <$> items))
    by (try done; by apply sorted_is_range).
  unfold trace, final; simpl. split_and!; try done. apply lookup_delete_eq.
Qed.

Lemma handle_order_input_sends_permuted_witness :
  ∃ wrap items,
    constructor_of "photo" = Some wrap
    ∧ Forall2 (λ i f, ["file1"; "file2"; "file3"] !! Z.to_nat (i - 1) = Some f)
        [3; 1; 2] items
    ∧ trace (handle_order_input reliable 130%Q (text_message "3 1 2")
               (with_session three_photos))
      = SendMediaGroup 7 (wrap <$> items) ::
          (if send_media_group_raises reliable 7 (wrap <$> items)
           then [Answer 7 SEND_ERROR_TEXT] else [])
    ∧ final (handle_order_input reliable 130%Q (text_message "3 1 2")
               (with_session three_photos))
      = set_user_sessions (delete 7) (with_session three_photos)
    ∧ user_sessions (final (handle_order_input reliable 130%Q (text_message "3 1 2")
                              (with_session three_photos))) !! 7 = None.
Proof.
  apply (handle_order_input_sends_permuted reliable 130%Q (text_message "3 1 2")
           (with_session three_photos) three_photos "3 1 2" [3; 1; 2]).
  - reflexivity.
  - unfold live. vm_compute. discriminate.
  - split; [|split].
    + exists InputMediaPhoto. reflexivity.
    + reflexivity.
    + simpl. lia.
  - reflexivity.
  - reflexivity.
  - change (seqZ 1 (Z.of_nat (length (files three_photos)))) with [1; 2; 3].
    apply (Permutation_cons_app [1; 2] []). reflexivity.
Defined.

(** The scenario of the specification: the reply 3 1 2 to three photos asks
    for the files in the order file3, file1, file2 and clears the session. *)
Example reorder_3_1_2 :
  handle_order_input reliable 130%Q (text_message "3 1 2") (with_session three_photos)
  = (Return tt, initial_state,
     [SendMediaGroup 7 [InputMediaPhoto "file3"; InputMediaPhoto "file1";
                        InputMediaPhoto "file2"]]).
Proof. vm_compute. reflexivity. Qed.

(** C3. When an order input reaches the send step (live session, the three
    checks passed, the files indexed, a wrapper chosen), the session is removed
    from the store whether the grouped send succeeds or raises. When it raises,
    its exception does not leave the handler: the handler asks for the retry
    reply and returns normally once that reply is delivered. When it succeeds,
    the send is the only request. *)
Theorem handle_order_input_clears_session (cl : Client) (now : Q)
    (message : Message) (st : State) (s : Session) (t : string)
    (order_numbers : list Z) (items : list string) (media : list InputMedia) :
  user_sessions st !! from_user_id message = Some s →
  live now s →
  text message = Some t →
  int_all (split t) = Some order_numbers →
  Z.of_nat (length order_numbers) = expected_count s →
  Z.of_nat (size (list_to_set order_numbers : gset Z)) = expected_count s →
  merge_sort Z.le order_numbers = seqZ 1 (expected_count s) →
  ordered (files s) order_numbers = Return items →
  input_media (type s) items = Some media →
  user_sessions (final (handle_order_input cl now message st))
    !! from_user_id message = None
  ∧ final (handle_order_input cl now message st)
    = set_user_sessions (delete (from_user_id message)) st
  ∧ result (handle_order_input cl now message st) ≠ Raise SendFailed
  ∧ (send_media_group_raises cl (from_user_id message) media = true →
       trace (handle_order_input cl now message st)
       = [SendMediaGroup (from_user_id message) media;
          Answer (chat_id message) SEND_ERROR_TEXT]
       ∧ (answer_raises cl (chat_id message) SEND_ERROR_TEXT = false →
            result (handle_order_input cl now message st) = Return tt))
  ∧ (send_media_group_raises cl (from_user_id message) media = false →
       trace (handle_order_input cl now message st)
       = [SendMediaGroup (from_user_id message) media]
       ∧ result (handle_order_input cl now message st) = Return tt).
Proof.
  intros Hs Hlive Ht Hparse Hlen Hsize Hsorted Hord Hmedia.
  rewrite (handle_order_input_send cl now message st s t order_numbers items media)
    by done.
  unfold result, final, trace; simpl. split_and!.
  - apply lookup_delete_eq.
  - done.
  - destruct (send_media_group_raises cl _ _); [|done].
    destruct (answer_raises cl _ _); done.
  - intros ->. split; [done|]. intros ->. done.
  - intros ->. done.
Qed.

Lemma handle_order_input_clears_session_witness :
  let out := handle_order_input refusing 130%Q (text_message "3 1 2")
               (with_session three_photos) in
  let media := [InputMediaPhoto "file3"; InputMediaPhoto "file1";
                InputMediaPhoto "file2"] in
  user_sessions (final out) !! 7 = None
  ∧ final out = set_user_sessions (delete 7) (with_session three_photos)
  ∧ result out ≠ Raise SendFailed
  ∧ (send_media_group_raises refusing 7 media = true →
       trace out = [SendMediaGroup 7 media; Answer 7 SEND_ERROR_TEXT]
       ∧ (answer_raises refusing 7 SEND_ERROR_TEXT = false →
            result out = Return tt))
  ∧ (send_media_group_raises refusing 7 media = false →
       trace out = [SendMediaGroup 7 media] ∧ result out = Return tt).
Proof.
  intros out media.
  apply (handle_order_input_clears_session refusing 130%Q (text_message "3 1 2")
           (with_session three_photos) three_photos "3 1 2" [3; 1; 2]
           ["file3"; "file1"; "file2"] media).
  - reflexivity.
  - unfold live. vm_compute. discriminate.
  - reflexivity.
  - reflexivity.
  - reflexivity.
  - vm_compute. reflexivity.
  - vm_compute. reflexivity.
  - reflexivity.
  - reflexivity.
Defined.

(** A refused send: the retry reply goes out, nothing is raised, and the
    session is gone. *)
Example refused_send :
  handle_order_input refusing 130%Q (text_message "3 1 2") (with_session three_photos)
  = (Return tt, initial_state,
     [SendMediaGroup 7 [InputMediaPhoto "file3"; InputMediaPhoto "file1";
                        InputMediaPhoto "file2"];
      Answer 7 SEND_ERROR_TEXT]).
Proof. vm_compute. reflexivity. Qed.

(** ** Finalising a group *)

Lemma size_le_1_uniform (l : list string) :
  (size (list_to_set l : gset string) ≤ 1)%nat ↔ ∀ x y, x ∈ l → y ∈ l → x = y.
Proof.
  split.
  - intros Hsize x y Hx Hy. destruct (decide (x = y)) as [|Hne]; [done|]. exfalso.
    assert (({[x]} ∪ {[y]} : gset string) ⊆ list_to_set l) as Hsub.
    { apply union_subseteq.
      split; apply singleton_subseteq_l, elem_of_list_to_set; done. }
    apply subseteq_size in Hsub. rewrite size_union in Hsub.
    + rewrite !size_singleton in Hsub. lia.
    + apply disjoint_singleton_l. rewrite elem_of_singleton. done.
  - intros Hall. destruct l as [|x l].
    + rewrite list_to_set_nil, size_empty. lia.
    + assert ((list_to_set (x :: l) : gset string) ⊆ {[x]}) as Hsub.
      { intros y Hy%elem_of_list_to_set. apply elem_of_singleton.
        apply Hall; [done|by left]. }
      apply subseteq_size in Hsub. by rewrite size_singleton in Hsub.
Qed.

Lemma valid_group_check (messages : list Message) :
  ((1 < size (list_to_set (content_type <$> messages) : gset string))%nat
   ∨ ¬ (2 ≤ length messages ≤ 10)%nat)
  ↔ ¬ valid_group messages.
Proof.
  unfold valid_group. split.
  - intros [Hsize|Hlen] [Hall Hrange]; [|done].
    assert (size (list_to_set (content_type <$> messages) : gset string) ≤ 1)%nat;
      [|lia].
    apply size_le_1_uniform.
    intros x y (m & -> & Hm)%list_elem_of_fmap (m' & -> & Hm')%list_elem_of_fmap.
    by apply Hall.
  - intros Hnot.
    destruct (decide (2 ≤ length messages ≤ 10)%nat) as [Hrange|]; [|by right].
    left. apply Nat.nle_gt. intros Hsize. apply Hnot. split; [|done].
    intros m m' Hm Hm'. apply (proj1 (size_le_1_uniform _) Hsize).
    + apply list_elem_of_fmap. eauto.
    + apply list_elem_of_fmap. eauto.
Qed.

Lemma collect_length (get_id : Message → Res string) (messages : list Message)
    (fs : list string) :
  collect get_id messages = Return fs → length fs = length messages.
Proof.
  revert fs. induction messages as [|m r IH]; simpl; intros fs Hfs.
  - by inversion Hfs.
  - destruct (get_id m); [|done]. destruct (collect get_id r) as [fs'|]; [|done].
    inversion Hfs. simpl. by rewrite (IH fs').
Qed.

Lemma group_files_length (content_type : string) (messages : list Message)
    (fs : list string) :
  group_files content_type messages = Some (Return fs) →
  length fs = length messages.
Proof.
  unfold group_files. repeat case_decide; intros Hfs; try done;
    inversion Hfs; eauto using collect_length.
Qed.

(** The files are extracted for the four supported content types only. *)
Lemma group_files_supported (content_type : string) (messages : list Message) :
  is_Some (group_files content_type messages) ↔ is_Some (constructor_of content_type).
Proof.
  unfold group_files, constructor_of.
  repeat case_decide; split; intros [? ?]; try done; eauto.
Qed.

Lemma seqZ_from_1 (n : nat) :
  (λ i : nat, Z.of_nat i + 1) <$> seq 0 n = seqZ 1 (Z.of_nat n).
Proof. unfold seqZ. by rewrite Nat2Z.id. Qed.

(** The confirmation counts the files, lists 1..n as the current order and
    n..1 as the example. *)
Lemma CONFIRMATION_TEXT_lists (n : nat) :
  CONFIRMATION_TEXT n =
    "Получено файлов: " +:+ str (Z.of_nat n) +:+ nl +:+ nl +:+
    "Текущий порядок: " +:+ join " " (str <$> seqZ 1 (Z.of_nat n)) +:+ nl +:+
    "Введите новую последовательность (например: " +:+
    join " " (str <$> reverse (seqZ 1 (Z.of_nat n))) +:+ ")".
Proof.
  unfold CONFIRMATION_TEXT, order_list, reverse_list.
  rewrite <- seqZ_from_1, <- fmap_reverse, <- !list_fmap_compose. reflexivity.
Qed.

Lemma valid_group_pass (messages : list Message) :
  ¬ ((1 < size (list_to_set (content_type <$> messages) : gset string))%nat
     ∨ ¬ (2 ≤ length messages ≤ 10)%nat)
  ↔ valid_group messages.
Proof.
  split.
  - intros Hok. unfold valid_group.
    assert (2 ≤ length messages ≤ 10)%nat as Hrange.
    { destruct (decide (2 ≤ length messages ≤ 10)%nat); [done|]. exfalso. auto. }
    split; [|done]. intros m m' Hm Hm'.
    apply (proj1 (size_le_1_uniform (content_type <$> messages))).
    + apply Nat.nlt_ge. intros Hsize. auto.
    + apply list_elem_of_fmap. eauto.
    + apply list_elem_of_fmap. eauto.
  - intros Hvalid Hbad. by apply valid_group_check in Hbad.
Qed.

(** The run of [process_media_group] on a buffer that is not empty, case by
    case. *)
Lemma process_media_group_run (cl : Client) (now : Q) (group_id : string)
    (st : State) (message : Message) (rest : list Message) :
  media_cache st !! group_id = Some (message :: rest) →
  let messages := message :: rest in
  let out := process_media_group cl now group_id st in
  media_cache (final out) = delete group_id (media_cache st)
  ∧ group_timers (final out) = group_timers st
  ∧ warning_cache (final out) = warning_cache st
  ∧ tasks (final out) = tasks st
  ∧ (¬ valid_group messages →
       user_sessions (final out) = user_sessions st
       ∧ trace out = [Answer (chat_id message) INVALID_GROUP_TEXT]
       ∧ result out = Return tt)
  ∧ (valid_group messages →
       match group_files (content_type message) messages with
       | Some (Return fs) =>
           user_sessions (final out)
           = <[from_user_id message := new_session now (content_type message) fs]>
               (user_sessions st)
           ∧ trace out = [Answer (chat_id message) (CONFIRMATION_TEXT (length fs))]
       | Some (Raise e) =>
           user_sessions (final out) = user_sessions st
           ∧ trace out = [] ∧ result out = Raise e
       | None =>
           user_sessions (final out) = user_sessions st
           ∧ trace out = [] ∧ result out = Return tt
       end).
Proof.
  intros Hbuf messages out. subst messages out.
  unfold process_media_group. unfold_monad. simpl. rewrite Hbuf. simpl.
  match goal with
  | |- context [decide ?P] => destruct (decide P) as [Hbad|Hok]
  end.
  - apply (proj1 (valid_group_check (message :: rest))) in Hbad. simpl.
    destruct (answer_raises cl (chat_id message) INVALID_GROUP_TEXT); simpl;
      split_and!; try done; intros Hvalid; contradiction.
  - apply (proj1 (valid_group_pass (message :: rest))) in Hok.
    destruct (group_files (content_type message) (message :: rest))
      as [[fs|e]|] eqn:Hfiles; simpl.
    + match goal with
      | |- context [answer_raises cl ?c ?b] => destruct (answer_raises cl c b)
      end; simpl; split_and!; try done; intros Hnot; contradiction.
    + split_and!; try done; intros Hnot; contradiction.
    + split_and!; try done; intros Hnot; contradiction.
Qed.

(** ** Albums *)

Lemma getitem_last {A} (l : list A) : getitem l (-1) = last l.
Proof.
  unfold getitem. rewrite decide_False by lia. rewrite last_lookup.
  destruct l as [|x l]; [done|].
  rewrite decide_True by (cbn [length]; lia). f_equal. cbn [length]. lia.
Qed.

Lemma photo_file_id_album (m : Message) (f : string) :
  content_type m = "photo" → album_file m = Some f → photo_file_id m = Return f.
Proof.
  unfold album_file, photo_file_id. intros ->. rewrite decide_True by done.
  destruct (photo m) as [sizes|]; [|done]. simpl. rewrite getitem_last.
  by intros ->.
Qed.

Lemma collect_album (get_id : Message → Res string) (ct : string)
    (messages : list Message) :
  (∀ m f, content_type m = ct → album_file m = Some f → get_id m = Return f) →
  Forall (λ m, content_type m = ct) messages →
  Forall album_item messages →
  ∃ fs, collect get_id messages = Return fs
        ∧ Forall2 (λ m f, album_file m = Some f) messages fs.
Proof.
  intros Hget Hct Hitems. induction messages as [|m r IH].
  - exists []. split; [done|constructor].
  - apply Forall_cons_1 in Hct as [Hm Hr].
    apply Forall_cons_1 in Hitems as [[f Hf] Hitems].
    destruct (IH Hr Hitems) as (fs & Hfs & Hall).
    exists (f :: fs). simpl. rewrite (Hget m f Hm Hf), Hfs.
    split; [done|by constructor].
Qed.

(** The files of an album of one content type are extracted, one per item. *)
Lemma group_files_album (message : Message) (rest : list Message) :
  Forall album_item (message :: rest) →
  valid_group (message :: rest) →
  ∃ fs, group_files (content_type message) (message :: rest) = Some (Return fs)
        ∧ Forall2 (λ m f, album_file m = Some f) (message :: rest) fs.
Proof.
  intros Hitems [Hsame _].
  assert (Forall (λ m, content_type m = content_type message) (message :: rest))
    as Hct.
  { apply Forall_forall. intros m Hm. apply Hsame; [done|by left]. }
  pose proof (Forall_inv Hitems) as [f0 Hf0].
  unfold group_files. unfold album_file in Hf0.
  destruct (decide (content_type message = "photo")) as [Hp|_].
  { destruct (collect_album photo_file_id _ _
                (λ m f Hm, photo_file_id_album m f (eq_trans Hm Hp)) Hct Hitems)
      as (fs & -> & Hall). eauto. }
  destruct (decide (content_type message = "video")) as [Hv|_].
  { destruct (collect_album (field_file_id video) (content_type message)
                (message :: rest))
      as (fs & -> & Hall); [|done|done|eauto].
    intros m f Hm. unfold album_file, field_file_id. rewrite Hm, Hv.
    rewrite decide_False by done. rewrite decide_True by done. by intros ->. }
  destruct (decide (content_type message = "audio")) as [Ha|_].
  { destruct (collect_album (field_file_id audio) (content_type message)
                (message :: rest))
      as (fs & -> & Hall); [|done|done|eauto].
    intros m f Hm. unfold album_file, field_file_id. rewrite Hm, Ha.
    rewrite !decide_False by done. rewrite decide_True by done. by intros ->. }
  destruct (decide (content_type message = "document")) as [Hd|_]; [|done].
  destruct (collect_album (field_file_id document) (content_type message)
                (message :: rest))
    as (fs & -> & Hall); [|done|done|eauto].
  intros m f Hm. unfold album_file, field_file_id. rewrite Hm, Hd.
  rewrite !decide_False by done. rewrite decide_True by done. by intros ->.
Qed.

(** C2. Finalising a pending group whose buffer [message :: rest] holds the
    items of an album (photos, videos, audios or documents, each with its
    file, as Telegram delivers them) removes the buffer in every case and
    touches neither timers, throttle nor tasks. A session is stored for the
    sender of the first event exactly when the events share one content type
    and there are 2 to 10 of them:
    - when the type or count check fails, the handler asks for the one error
      reply, the sessions stay as they were, and nothing is raised;
    - when the checks pass, the session that holds the file of every item in
      the order of the buffer, the content type, the count N and the current
      time replaces whatever the sender had, and the handler asks for the one
      confirmation, which lists 1..N as the current order and N..1 as the
      example. *)
Theorem process_media_group_outcome (cl : Client) (now : Q) (group_id : string)
    (st : State) (message : Message) (rest : list Message) :
  media_cache st !! group_id = Some (message :: rest) →
  Forall album_item (message :: rest) →
  let messages := message :: rest in
  let out := process_media_group cl now group_id st in
  let N := Z.of_nat (length messages) in
  media_cache (final out) = delete group_id (media_cache st)
  ∧ group_timers (final out) = group_timers st
  ∧ warning_cache (final out) = warning_cache st
  ∧ tasks (final out) = tasks st
  ∧ (¬ valid_group messages →
       user_sessions (final out) = user_sessions st
       ∧ trace out = [Answer (chat_id message) INVALID_GROUP_TEXT]
       ∧ result out = Return tt)
  ∧ (valid_group messages →
       ∃ fs,
         Forall2 (λ m f, album_file m = Some f) messages fs
         ∧ user_sessions (final out)
           = <[from_user_id message :=
                 {| files := fs; type := content_type message;
                    expected_count := N; timestamp := now |}]>
               (user_sessions st)
         ∧ trace out
           = [Answer (chat_id message)
                ("Получено файлов: " +:+ str N +:+ nl +:+ nl +:+
                 "Текущий порядок: " +:+ join " " (str <$> seqZ 1 N) +:+ nl +:+
                 "Введите новую последовательность (например: " +:+
                 join " " (str <$> reverse (seqZ 1 N)) +:+ ")")]).
Proof.
  intros Hbuf Hitems messages out N.
  destruct (process_media_group_run cl now group_id st message rest Hbuf)
    as (Hcache & Htimers & Hwarn & Htasks & Hinvalid & Hvalid).
  split_and!; try done.
  intros Hv. specialize (Hvalid Hv). fold messages in Hvalid.
  destruct (group_files_album message rest Hitems Hv) as (fs & Hfiles & Hall).
  fold messages in Hfiles, Hall. rewrite Hfiles in Hvalid.
  destruct Hvalid as [Hsess Htrace].
  pose proof (Forall2_length _ _ _ Hall) as Hlen.
  exists fs. split_and!; [done| |].
  - fold out in Hsess. rewrite Hsess. unfold new_session, N. by rewrite Hlen.
  - fold out in Htrace. rewrite Htrace, CONFIRMATION_TEXT_lists.
    unfold N. by rewrite Hlen.
Qed.

Lemma burst_valid : valid_group burst.
Proof.
  apply valid_group_pass. vm_compute. intros [H|H]; [lia|]. apply H. lia.
Qed.

Lemma process_media_group_outcome_witness :
  let out := process_media_group reliable 1.3%Q "G" (with_group burst) in
  media_cache (final out) = delete "G" (media_cache (with_group burst))
  ∧ ∃ fs,
      Forall2 (λ m f, album_file m = Some f) burst fs
      ∧ user_sessions (final out)
        = <[7 := {| files := fs; type := "photo"; expected_count := 3;
                    timestamp := 1.3%Q |}]> ∅
      ∧ trace out
        = [Answer 7
             ("Получено файлов: " +:+ str 3 +:+ nl +:+ nl +:+
              "Текущий порядок: " +:+ join " " (str <$> seqZ 1 3) +:+ nl +:+
              "Введите новую последовательность (например: " +:+
              join " " (str <$> reverse (seqZ 1 3)) +:+ ")")].
Proof.
  intros out. subst out.
  destruct (process_media_group_outcome reliable 1.3%Q "G" (with_group burst)
              (photo_message "file1" 0%Q)
              [photo_message "file2" 0.3%Q; photo_message "file3" 0.6%Q]
              eq_refl)
    as (Hcache & _ & _ & _ & _ & Hvalid).
  - repeat (constructor; [by eexists|]). constructor.
  - split; [exact Hcache|]. exact (Hvalid burst_valid).
Defined.

(** The same on the burst, computed: the files are the largest sizes of the
    three photos, in the order of arrival. *)
Example process_media_group_burst :
  process_media_group reliable 1.3%Q "G" (with_group burst)
  = (Return tt,
     set_user_sessions
       <[7 := new_session 1.3%Q "photo" ["file1"; "file2"; "file3"]]> initial_state,
     [Answer 7 (CONFIRMATION_TEXT 3)]).
Proof. vm_compute. reflexivity. Qed.

(** Outside albums. A buffer of two messages of a content type that Telegram
    does not group (here animations) passes the type and count checks and is
    dropped by the [else: return] of line 116: no session, no reply. *)
Example unsupported_type_is_dropped :
  let messages := [animation_message 0%Q; animation_message 0.3%Q] in
  let out := process_media_group reliable 1%Q "G" (with_group messages) in
  valid_group messages
  ∧ user_sessions (final out) !! 7 = None
  ∧ trace out = [].
Proof.
  intros messages out. split_and!.
  - apply valid_group_pass. vm_compute. intros [H|H]; [lia|]. apply H. lia.
  - vm_compute. reflexivity.
  - vm_compute. reflexivity.
Qed.

(** ** The debounce timers *)

(** The slip behind C7: a task cancelled in its sleep removes the entry of its
    group from [group_timers] whichever task that entry names, also the task
    that replaced it. *)
Lemma cancelled_task_unregisters_group (cl : Client) (now : Q) (tid : nat)
    (st : State) (t : Task) :
  tasks st !! tid = Some t → task_phase t = Cancelling true →
  group_timers (final (delayed_process cl now tid st))
  = delete (task_group t) (group_timers st).
Proof.
  intros Ht Hphase. unfold delayed_process, set_phase. unfold_monad. simpl.
  rewrite Ht, Hphase. simpl. reflexivity.
Qed.

(** C7 fails on the code. After the third arrival two timers of the group are
    live: task 1, armed at the second arrival, was never cancelled, because the
    [finally] block of the cancelled task 0 had removed the entry of task 1
    from [group_timers]; task 2 was armed next to it. Task 1 then fires at 1.0,
    0.4 seconds after the last arrival. With a fourth photo at 1.2 the burst is
    finalised twice: task 1 makes a session of the first three files, and task
    2 fires at 1.3 on the fourth alone and rejects it. *)
Theorem debounce_leaves_two_live_timers :
  let st := (run reliable three_arrivals initial_state).1 in
  live_timers "G" st = [1%nat; 2%nat]
  ∧ group_timers st = {[ "G" := 2%nat ]}
  ∧ (task_phase <$> tasks st) = [Finished; Sleeping 1%Q; Sleeping 1.3%Q]
  ∧ (run reliable four_arrivals initial_state).2
    = [Answer 7 (CONFIRMATION_TEXT 3); Answer 7 INVALID_GROUP_TEXT]
  ∧ (files <$> user_sessions (run reliable four_arrivals initial_state).1)
    = {[ 7 := ["file1"; "file2"; "file3"] ]}.
Proof.
  intros st. split_and!; vm_compute; reflexivity.
Qed.

(** ** The filter of the order-input handler *)

Lemma split_digit_tokens (s : string) :
  digits_and_spaces s = true → Forall digit_token (split s).
Proof.
  induction s as [|c r IH]; simpl; intros Hs; [constructor|].
  apply andb_prop in Hs as [Hc Hr]. specialize (IH Hr).
  destruct (is_space c) eqn:Hspace; [done|].
  rewrite orb_false_r in Hc.
  destruct r as [|c' r'].
  - constructor; [|constructor]. by exists c, "".
  - destruct (is_space c') eqn:Hspace'.
    + constructor; [|done]. by exists c, "".
    + destruct (split (String c' r')) as [|t ts].
      * constructor; [|constructor]. by exists c, "".
      * inversion IH as [|? ? (c1 & r1 & -> & Hc1 & Hr1) Hts]; subst.
        constructor; [|done]. exists c, (String c1 r1). split; [done|].
        split; [done|]. simpl. by rewrite Hc1, Hr1.
Qed.

Lemma int_digits_all_digits (s : string) (prev : bool) (acc : Z) :
  all_digits s = true → s ≠ "" ∨ prev = true →
  is_Some (int_digits prev acc s).
Proof.
  revert prev acc. induction s as [|c r IH]; simpl; intros prev acc Hs Hne.
  - destruct Hne as [Hne | ->]; [done|]. eauto.
  - apply andb_prop in Hs as [Hc Hr]. rewrite Hc. apply IH; [done|]. by right.
Qed.

Lemma int_digit_token (tok : string) : digit_token tok → is_Some (int tok).
Proof.
  intros (c & r & -> & Hc & Hr).
  assert (int (String c r) = int_digits false 0 (String c r)) as ->.
  { destruct c as [[|] [|] [|] [|] [|] [|] [|] [|]]; try discriminate Hc; reflexivity. }
  apply int_digits_all_digits; [|by left]. simpl. by rewrite Hc, Hr.
Qed.

Lemma int_all_digit_tokens (xs : list string) :
  Forall digit_token xs → is_Some (int_all xs).
Proof.
  induction 1 as [|x r Hx _ [ns Hns]]; simpl; [eauto|].
  destruct (int_digit_token x Hx) as [n ->]. rewrite Hns. eauto.
Qed.

(** Every text that passes the filter of line 161 is parsed without a
    [ValueError]: through the dispatcher the [except] branch of line 181 is
    never taken. *)
Lemma order_regexp_parses (t : string) :
  order_regexp t = true → is_Some (int_all (split t)).
Proof.
  intros Ht. apply int_all_digit_tokens, split_digit_tokens.
  destruct t as [|c r]; [done|]. simpl in *.
  apply andb_prop in Ht as [Hc Hr]. by rewrite Hc, Hr.
Qed.

Lemma order_regexp_rejects (t token : string) :
  token ∈ split t → int token = None → order_regexp t = false.
Proof.
  intros Htok Hbad. destruct (order_regexp t) eqn:Hre; [|done].
  apply order_regexp_parses in Hre as [l Hl].
  assert (int_all (split t) = None) as Hnone by (apply int_all_None; eauto).
  congruence.
Qed.

(** X12. A plain text (ASCII characters, within the digit limit of [int])
    with a token that [int] rejects does not pass the filter of the order
    handler: when the message belongs to no media group, the dispatcher hands
    it to the reset, help or fallback handler. *)
Lemma dispatch_non_numeric (cl : Client) (now : Q) (message : Message)
    (t token : string) :
  text message = Some t → plain_text t = true →
  token ∈ split t → int token = None →
  media_group_id message = None →
  dispatch cl now message
  = if bool_decide (text message = Some "/start" ∨ text message = Some "↩️ Сбросить")
    then cmd_start cl message
    else if bool_decide (text message = Some "/help" ∨ text message = Some "🆘 Помощь")
    then cmd_help cl message
    else fallback_handler cl now message.
Proof.
  intros Ht _ Htok Hbad Hgroup. unfold dispatch. rewrite Hgroup, Ht.
  by rewrite (order_regexp_rejects t token Htok Hbad).
Qed.

(** ** The sessions of reachable states *)

Lemma sessions_step_wf (st st' : State) :
  sessions_step st st' → sessions_wf st → sessions_wf st'.
Proof.
  unfold sessions_wf. intros [Heq|u Heq|u s Hs Heq] Hwf; rewrite Heq.
  - done.
  - by apply map_Forall_delete.
  - by apply map_Forall_insert_2.
Qed.

Lemma handle_order_input_step (cl : Client) (now : Q) (message : Message) (st : State) :
  sessions_step st (final (handle_order_input cl now message st)).
Proof.
  unfold handle_order_input. unfold_monad. simpl.
  destruct (user_sessions st !! from_user_id message) as [s|]; simpl;
    [|by apply sessions_same].
  destruct (Qlt_le_dec SESSION_LIFETIME (now - timestamp s)); simpl;
    [by apply (sessions_removed _ _ (from_user_id message))|].
  destruct (text message) as [t|]; simpl; [|by apply sessions_same].
  destruct (int_all (split t)) as [l|]; simpl; [|by apply sessions_same].
  repeat case_decide; simpl; try by apply sessions_same.
  destruct (ordered (files s) l) as [items|e]; simpl; [|by apply sessions_same].
  destruct (input_media (type s) items) as [media|]; simpl; [|by apply sessions_same].
  destruct (send_media_group_raises cl (from_user_id message) media); simpl.
  - destruct (answer_raises cl (chat_id message) SEND_ERROR_TEXT); simpl;
      by apply (sessions_removed _ _ (from_user_id message)).
  - by apply (sessions_removed _ _ (from_user_id message)).
Qed.

Lemma valid_group_session_wf (now : Q) (message : Message) (rest : list Message)
    (fs : list string) :
  valid_group (message :: rest) →
  group_files (content_type message) (message :: rest) = Some (Return fs) →
  session_wf (new_session now (content_type message) fs).
Proof.
  intros [_ Hrange] Hfiles. unfold session_wf, new_session; simpl.
  pose proof (group_files_length _ _ _ Hfiles) as Hlen.
  split_and!.
  - apply (group_files_supported _ (message :: rest)). rewrite Hfiles. eauto.
  - done.
  - rewrite Hlen. lia.
  - rewrite Hlen. lia.
Qed.

Lemma process_media_group_step (cl : Client) (now : Q) (group_id : string) (st : State) :
  sessions_step st (final (process_media_group cl now group_id st)).
Proof.
  destruct (media_cache st !! group_id) as [[|message rest]|] eqn:Hbuf.
  - unfold process_media_group. unfold_monad. simpl. rewrite Hbuf. simpl.
    by apply sessions_same.
  - destruct (process_media_group_run cl now group_id st message rest Hbuf)
      as (_ & _ & _ & _ & Hinvalid & Hvalid).
    destruct (decide ((1 < size (list_to_set (content_type <$> message :: rest)
                                   : gset string))%nat
                      ∨ ¬ (2 ≤ length (message :: rest) ≤ 10)%nat)) as [Hbad|Hok].
    + apply valid_group_check in Hbad. apply sessions_same. by apply Hinvalid.
    + apply valid_group_pass in Hok. specialize (Hvalid Hok).
      destruct (group_files (content_type message) (message :: rest))
        as [[fs|e]|] eqn:Hfiles.
      * destruct Hvalid as [Hsessions _].
        apply (sessions_stored _ _ (from_user_id message)
                 (new_session now (content_type message) fs)); [|done].
        by apply (valid_group_session_wf now message rest).
      * apply sessions_same. by apply Hvalid.
      * apply sessions_same. by apply Hvalid.
  - unfold process_media_group. unfold_monad. simpl. rewrite Hbuf. simpl.
    by apply sessions_same.
Qed.

Lemma delayed_process_step (cl : Client) (now : Q) (tid : nat) (st : State) :
  sessions_step st (final (delayed_process cl now tid st)).
Proof.
  unfold delayed_process, bind, get. cbv beta iota.
  destruct (tasks st !! tid) as [t|]; [|by apply sessions_same].
  destruct (task_phase t) as [|wake|[|]|]; try by apply sessions_same.
  destruct (Qle_bool wake now); [|by apply sessions_same].
  pose proof (process_media_group_step cl now (task_group t) st) as Hstep.
  unfold try_finally, try_except, set_phase, modify, ret, final in *.
  destruct (process_media_group cl now (task_group t) st) as [[[[]|e] st1] t1];
    simpl in *.
  - destruct Hstep as [Heq|u Heq|u s Hs Heq];
      [by apply sessions_same|by apply (sessions_removed _ _ u)
      |by apply (sessions_stored _ _ u s)].
  - destruct Hstep as [Heq|u Heq|u s Hs Heq];
      [by apply sessions_same|by apply (sessions_removed _ _ u)
      |by apply (sessions_stored _ _ u s)].
Qed.

Lemma dispatch_step (cl : Client) (now : Q) (message : Message) (st : State) :
  sessions_step st (final (dispatch cl now message st)).
Proof.
  unfold dispatch.
  case_bool_decide; [by apply (sessions_removed _ _ (from_user_id message))|].
  case_bool_decide; [by apply sessions_same|].
  destruct (media_group_id message) as [[|c r]|].
  - destruct (text message) as [t|].
    + destruct (order_regexp t); [apply handle_order_input_step|].
      unfold fallback_handler. unfold_monad. simpl.
      destruct (Qlt_le_dec _ _); by apply sessions_same.
    + unfold fallback_handler. unfold_monad. simpl.
      destruct (Qlt_le_dec _ _); by apply sessions_same.
  - unfold handle_media_group, create_task. unfold_monad. simpl.
    destruct (group_timers _ !! _); by apply sessions_same.
  - destruct (text message) as [t|].
    + destruct (order_regexp t); [apply handle_order_input_step|].
      unfold fallback_handler. unfold_monad. simpl.
      destruct (Qlt_le_dec _ _); by apply sessions_same.
    + unfold fallback_handler. unfold_monad. simpl.
      destruct (Qlt_le_dec _ _); by apply sessions_same.
Qed.

Lemma run_event_step (cl : Client) (ev : Event) (st : State) :
  sessions_step st (final (run_event cl ev st)).
Proof.
  destruct ev as [now message|now tid|now]; simpl.
  - apply dispatch_step.
  - apply delayed_process_step.
  - by apply sessions_same.
Qed.

(** Whatever arrives and whichever tasks run, every session in the store is
    well-formed: its content type is one of the four, its expected count is the
    number of its files, and that number lies between 2 and 10. *)
Lemma run_sessions_wf (cl : Client) (evs : list Event) (st : State) :
  sessions_wf st → sessions_wf (run cl evs st).1.
Proof.
  revert st. induction evs as [|ev rest IH]; intros st Hwf; simpl; [done|].
  pose proof (run_event_step cl ev st) as Hstep. unfold final in Hstep.
  destruct (run_event cl ev st) as [[r st1] t1]. simpl in Hstep.
  specialize (IH st1 (sessions_step_wf _ _ Hstep Hwf)).
  destruct (run cl rest st1) as [st2 t2]. done.
Qed.

(** X17. The sessions of reachable states: whatever messages arrive, whichever
    tasks run and whenever the janitor sweeps, a session found in the store
    has one of the four content types, an expected count equal to the number
    of its files, and between 2 and 10 files. *)
Lemma reachable_sessions_wf (cl : Client) (evs : list Event) (u : Z) (s : Session) :
  user_sessions (run cl evs initial_state).1 !! u = Some s → session_wf s.
Proof.
  intros Hs. apply (run_sessions_wf cl evs initial_state) in Hs; [done|].
  unfold sessions_wf, initial_state; simpl. apply map_Forall_empty.
Qed.

(** * Further properties of the code *)

(** ** Printing and parsing integers *)

Lemma pretty_N_char_digit (x : N) :
  (x < 10)%N →
  is_digit (pretty_N_char x) = true ∧ digit_value (pretty_N_char x) = Z.of_N x.
Proof.
  intros Hx.
  assert (x = 0 ∨ x = 1 ∨ x = 2 ∨ x = 3 ∨ x = 4 ∨ x = 5 ∨ x = 6 ∨ x = 7
          ∨ x = 8 ∨ x = 9)%N as Hcases by lia.
  repeat (destruct Hcases as [->|Hcases]; [split; reflexivity|]).
  subst x. split; reflexivity.
Qed.

(** The digits that [str] writes in front of [s] are read back as the number
    they stand for, shifted in behind what was read before. *)
Lemma int_digits_pretty_N_go (x : N) :
  (0 < x)%N →
  ∃ k : Z, 0 ≤ k ∧ ∀ (s : string) (prev : bool) (acc : Z),
    int_digits prev acc (pretty_N_go x s)
    = int_digits true (acc * 10 ^ k + Z.of_N x) s.
Proof.
  induction (N.lt_wf_0 x) as [x _ IH]; intros Hx.
  assert (x `mod` 10 < 10)%N as Hmod by (apply N.mod_lt; lia).
  destruct (pretty_N_char_digit _ Hmod) as [Hdigit Hvalue].
  assert (Z.of_N x = 10 * Z.of_N (x `div` 10) + Z.of_N (x `mod` 10)) as Hx10.
  { rewrite (N.div_mod x 10) at 1 by lia. lia. }
  destruct (decide (x `div` 10 = 0)%N) as [Hsmall|Hbig].
  - exists 1. split; [lia|]. intros s prev acc. rewrite pretty_N_go_step by done.
    rewrite Hsmall, pretty_N_go_0. simpl. rewrite Hdigit, Hvalue.
    f_equal. rewrite Hx10, Hsmall. lia.
  - destruct (IH (x `div` 10)%N) as (k & Hk0 & Hk); [apply N.div_lt; lia|lia|].
    exists (Z.succ k). split; [lia|]. intros s prev acc.
    rewrite pretty_N_go_step by done. rewrite Hk. simpl.
    rewrite Hdigit, Hvalue. f_equal. rewrite Hx10, Z.pow_succ_r by lia. lia.
Qed.

Lemma int_of_digits (s : string) (v : Z) :
  int_digits false 0 s = Some v → int s = Some v.
Proof.
  destruct s as [|c r]; [done|].
  destruct c as [[|] [|] [|] [|] [|] [|] [|] [|]]; simpl; intros H;
    first [exact H | discriminate H].
Qed.

(** Round trip: [int(str(i)) == i] for every integer. *)
Lemma int_str (i : Z) : int (str i) = Some i.
Proof.
  unfold str, pretty, pretty_Z. destruct i as [|p|p].
  - reflexivity.
  - unfold pretty, pretty_positive, pretty, pretty_N.
    rewrite decide_False by done.
    destruct (int_digits_pretty_N_go (N.pos p)) as (k & _ & Hk); [lia|].
    apply int_of_digits. rewrite Hk. simpl. f_equal.
  - unfold pretty, pretty_positive, pretty, pretty_N.
    rewrite decide_False by done.
    destruct (int_digits_pretty_N_go (N.pos p)) as (k & _ & Hk); [lia|].
    change (Z.opp <$> int_digits false 0 (pretty_N_go (N.pos p) "")
            = Some (Z.neg p)).
    rewrite Hk. reflexivity.
Qed.

(** ** Splitting and joining *)

Lemma split_skip (c : ascii) (r : string) :
  is_space c = true → split (String c r) = split r.
Proof. intros Hc. simpl. by rewrite Hc. Qed.

Lemma split_extend (c c' : ascii) (r : string) :
  is_space c = false → is_space c' = false →
  split (String c (String c' r))
  = match split (String c' r) with
    | t :: ts => String c t :: ts
    | [] => [String c ""]
    end.
Proof. intros Hc Hc'. simpl. by rewrite Hc, Hc'. Qed.

Lemma split_word (w : string) : word w → split w = [w].
Proof.
  intros [Hne Hw]. induction w as [|c r IH]; [done|]. clear Hne.
  simpl in Hw. apply andb_prop in Hw as [Hc Hr]. apply negb_true_iff in Hc.
  destruct r as [|c' r']; [simpl; by rewrite Hc|].
  pose proof Hr as Hr'. simpl in Hr'. apply andb_prop in Hr' as [Hc' _].
  apply negb_true_iff in Hc'.
  rewrite split_extend by done. by rewrite IH.
Qed.

Lemma split_word_space (w rest : string) :
  word w → split (w +:+ String " " rest) = w :: split rest.
Proof.
  intros [Hne Hw]. induction w as [|c r IH]; [done|]. clear Hne.
  simpl in Hw. apply andb_prop in Hw as [Hc Hr]. apply negb_true_iff in Hc.
  destruct r as [|c' r'].
  - change (split (String c (String " " rest)) = [String c ""] ++ split rest).
    simpl. rewrite Hc. reflexivity.
  - pose proof Hr as Hr'. simpl in Hr'. apply andb_prop in Hr' as [Hc' _].
    apply negb_true_iff in Hc'.
    change (String c (String c' r') +:+ String " " rest)
      with (String c (String c' (r' +:+ String " " rest))).
    rewrite split_extend by done.
    change (String c' (r' +:+ String " " rest))
      with (String c' r' +:+ String " " rest).
    by rewrite IH.
Qed.

(** [str.split] gives words only, whatever the text. *)
Lemma split_words (s : string) : Forall word (split s).
Proof.
  induction s as [|c r IH]; simpl; [constructor|].
  destruct (is_space c) eqn:Hc; [done|].
  assert (word (String c "")) as Hone by (split; [done|]; simpl; by rewrite Hc).
  destruct r as [|c' r']; [constructor; [exact Hone|constructor]|].
  destruct (is_space c') eqn:Hc'; [by constructor|].
  destruct (split (String c' r')) as [|t ts]; [constructor; [exact Hone|constructor]|].
  inversion IH as [|? ? [Hne Ht] Hts]; subst.
  constructor; [|done]. split; [done|]. simpl. by rewrite Hc, Ht.
Qed.

(** A text of white space only has no token. *)
Lemma split_spaces (s : string) :
  (∀ tok, tok ∉ split s) ↔ ∀ c, c ∈ list_ascii_of_string s → is_space c = true.
Proof.
  split.
  - induction s as [|c r IH]; simpl; intros Hnone c0 Hc0;
      [by apply elem_of_nil in Hc0|].
    destruct (is_space c) eqn:Hc.
    + apply elem_of_cons in Hc0 as [->|Hc0]; [done|]. by apply IH.
    + exfalso. destruct r as [|c' r']; [by apply (Hnone (String c "")); left|].
      destruct (is_space c'); [by apply (Hnone (String c "")); left|].
      destruct (split (String c' r')) as [|t ts];
        [by apply (Hnone (String c "")); left|by apply (Hnone (String c t)); left].
  - induction s as [|c r IH]; simpl; intros Hall tok Htok;
      [by apply elem_of_nil in Htok|].
    rewrite (Hall c) in Htok by (by left).
    apply (IH (λ c0 Hc0, Hall c0 (list_elem_of_further _ _ _ Hc0)) tok Htok).
Qed.

(** Round trip: splitting the words joined by single spaces gives the words
    back. *)
Lemma split_join (ws : list string) : Forall word ws → split (join " " ws) = ws.
Proof.
  induction 1 as [|w ws Hw Hws IH]; [done|].
  unfold join in *. destruct ws as [|w' ws']; [by apply split_word|].
  change (String.concat " " (w :: w' :: ws'))
    with (w +:+ String " " (String.concat " " (w' :: ws'))).
  rewrite split_word_space by done. by rewrite IH.
Qed.

Lemma no_space_digit (c : ascii) : is_digit c = true → is_space c = false.
Proof.
  destruct c as [[|] [|] [|] [|] [|] [|] [|] [|]]; simpl; intros H;
    first [reflexivity | discriminate H].
Qed.

Lemma no_space_pretty_N_go (x : N) (s : string) :
  no_space s = true → no_space (pretty_N_go x s) = true.
Proof.
  revert s. induction (N.lt_wf_0 x) as [x _ IH]; intros s Hs.
  destruct (decide (x = 0)%N) as [->|Hx]; [by rewrite pretty_N_go_0|].
  rewrite pretty_N_go_step by lia. apply IH; [apply N.div_lt; lia|].
  simpl. rewrite Hs.
  destruct (pretty_N_char_digit (x `mod` 10)) as [Hd _]; [apply N.mod_lt; lia|].
  by rewrite (no_space_digit _ Hd).
Qed.

Lemma pretty_N_go_nonempty (x : N) (s : string) :
  (0 < x)%N → pretty_N_go x s ≠ "".
Proof.
  revert s. induction (N.lt_wf_0 x) as [x _ IH]; intros s Hx.
  rewrite pretty_N_go_step by done.
  destruct (decide (x `div` 10 = 0)%N) as [Hsmall|Hbig].
  - rewrite Hsmall, pretty_N_go_0. done.
  - apply IH; [apply N.div_lt; lia|]. apply N.neq_0_lt_0. done.
Qed.

(** What [str] prints is one word. *)
Lemma word_str (i : Z) : word (str i).
Proof.
  unfold str, pretty, pretty_Z. destruct i as [|p|p].
  - split; [done|reflexivity].
  - unfold pretty, pretty_positive, pretty, pretty_N. rewrite decide_False by done.
    split; [by apply pretty_N_go_nonempty|by apply no_space_pretty_N_go].
  - unfold pretty, pretty_positive, pretty, pretty_N. rewrite decide_False by done.
    split; [done|].
    change (no_space (String "-" (pretty_N_go (N.pos p) "")) = true).
    simpl. by apply no_space_pretty_N_go.
Qed.

Lemma int_all_str (l : list Z) : int_all (str <$> l) = Some l.
Proof.
  induction l as [|i l IH]; [done|].
  rewrite fmap_cons. simpl. by rewrite int_str, IH.
Qed.

(** Round trip of the order input: the numbers printed and joined by spaces
    are parsed back to the same numbers. *)
Lemma parse_join_str (l : list Z) :
  int_all (split (join " " (str <$> l))) = Some l.
Proof.
  rewrite split_join; [apply int_all_str|].
  apply Forall_fmap, Forall_forall. intros i _. apply word_str.
Qed.

(** ** From the confirmation to the reordered send *)

Lemma order_list_seqZ (n : nat) :
  order_list n = join " " (str <$> seqZ 1 (Z.of_nat n)).
Proof. unfold order_list. by rewrite <- seqZ_from_1, <- list_fmap_compose. Qed.

Lemma reverse_list_seqZ (n : nat) :
  reverse_list n = join " " (str <$> reverse (seqZ 1 (Z.of_nat n))).
Proof.
  unfold reverse_list.
  by rewrite <- seqZ_from_1, <- fmap_reverse, <- list_fmap_compose.
Qed.

(** The numbers 1..n pick the files in their own order. *)
Lemma identity_picks_all (files : list string) :
  Forall2 (λ i f, files !! Z.to_nat (i - 1) = Some f)
    (seqZ 1 (Z.of_nat (length files))) files.
Proof.
  apply Forall2_same_length_lookup_2.
  - rewrite length_seqZ. lia.
  - intros k i f Hi Hf. apply lookup_seqZ in Hi as [-> _].
    by replace (Z.to_nat (1 + Z.of_nat k - 1)) with k by lia.
Qed.

Lemma picks_functional (files : list string) (l : list Z) (items items' : list string) :
  Forall2 (λ i f, files !! Z.to_nat (i - 1) = Some f) l items →
  Forall2 (λ i f, files !! Z.to_nat (i - 1) = Some f) l items' →
  items = items'.
Proof.
  intros H. revert items'. induction H as [|i f l items Hf _ IH]; intros items' H';
    inversion H' as [|? f' ? items'' Hf' Hrest]; subst; [done|].
  f_equal; [congruence|by apply IH].
Qed.

(** What a permutation of 1..N meets on its way to the send step, for a
    well-formed session. *)
Lemma send_step_of_permutation (s : Session) (P : list Z) :
  session_wf s →
  P ≡ₚ seqZ 1 (Z.of_nat (length (files s))) →
  ∃ wrap items,
    constructor_of (type s) = Some wrap
    ∧ Forall2 (λ i f, files s !! Z.to_nat (i - 1) = Some f) P items
    ∧ Z.of_nat (length P) = expected_count s
    ∧ Z.of_nat (size (list_to_set P : gset Z)) = expected_count s
    ∧ merge_sort Z.le P = seqZ 1 (expected_count s)
    ∧ ordered (files s) P = Return items
    ∧ input_media (type s) items = Some (wrap <$> items).
Proof.
  intros ([wrap Hwrap] & Hcount & _) Hperm. rewrite <- Hcount in Hperm.
  destruct (permutation_counts P (expected_count s)) as [Hlen Hsize]; [lia|done|].
  destruct (ordered_in_range (files s) P) as (items & Hord & Hitems).
  { apply Forall_forall. intros i Hi. rewrite Hperm in Hi.
    apply elem_of_seqZ in Hi. lia. }
  exists wrap, items. split_and!; try done.
  - by apply sorted_is_range.
  - by rewrite input_media_constructor, Hwrap.
Qed.

(** X2. The two orders that the confirmation shows are valid inputs: sent back as
    they are, the example N..1 gets the files in reverse and the current order
    1..N gets them as they were. *)
Theorem confirmation_orders_accepted (cl : Client) (now : Q) (message : Message)
    (st : State) (s : Session) :
  user_sessions st !! from_user_id message = Some s →
  live now s →
  session_wf s →
  ∃ wrap,
    constructor_of (type s) = Some wrap
    ∧ (text message = Some (reverse_list (length (files s))) →
         trace (handle_order_input cl now message st)
         = SendMediaGroup (from_user_id message) (wrap <$> reverse (files s)) ::
             (if send_media_group_raises cl (from_user_id message)
                   (wrap <$> reverse (files s))
              then [Answer (chat_id message) SEND_ERROR_TEXT] else []))
    ∧ (text message = Some (order_list (length (files s))) →
         trace (handle_order_input cl now message st)
         = SendMediaGroup (from_user_id message) (wrap <$> files s) ::
             (if send_media_group_raises cl (from_user_id message) (wrap <$> files s)
              then [Answer (chat_id message) SEND_ERROR_TEXT] else [])).
Proof.
  intros Hs Hlive Hwf.
  destruct (send_step_of_permutation s (reverse (seqZ 1 (Z.of_nat (length (files s))))))
    as (wrap & items & Hwrap & Hitems & Hlen & Hsize & Hsorted & Hord & Hmedia);
    [done|by rewrite reverse_Permutation|].
  destruct (send_step_of_permutation s (seqZ 1 (Z.of_nat (length (files s)))))
    as (wrap' & items' & Hwrap' & Hitems' & Hlen' & Hsize' & Hsorted' & Hord' & Hmedia');
    [done|done|].
  assert (wrap' = wrap) as -> by congruence.
  assert (items = reverse (files s)) as ->.
  { apply (picks_functional (files s) _ _ _ Hitems).
    apply Forall2_reverse, identity_picks_all. }
  assert (items' = files s) as ->.
  { apply (picks_functional (files s) _ _ _ Hitems'), identity_picks_all. }
  exists wrap. split; [done|]. split; intros Ht.
  - rewrite (handle_order_input_send cl now message st s _ _ _ _
               Hs Hlive Ht (eq_trans (f_equal _ (f_equal _ (reverse_list_seqZ _)))
                              (parse_join_str _))
               Hlen Hsize Hsorted Hord Hmedia).
    reflexivity.
  - rewrite (handle_order_input_send cl now message st s _ _ _ _
               Hs Hlive Ht (eq_trans (f_equal _ (f_equal _ (order_list_seqZ _)))
                              (parse_join_str _))
               Hlen' Hsize' Hsorted' Hord' Hmedia').
    reflexivity.
Qed.

Lemma confirmation_orders_accepted_witness :
  ∃ wrap,
    constructor_of "photo" = Some wrap
    ∧ (text (text_message "3 2 1") = Some (reverse_list 3) →
         trace (handle_order_input reliable 130%Q (text_message "3 2 1")
                  (with_session three_photos))
         = SendMediaGroup 7 (wrap <$> reverse ["file1"; "file2"; "file3"]) ::
             (if send_media_group_raises reliable 7
                   (wrap <$> reverse ["file1"; "file2"; "file3"])
              then [Answer 7 SEND_ERROR_TEXT] else []))
    ∧ (text (text_message "3 2 1") = Some (order_list 3) →
         trace (handle_order_input reliable 130%Q (text_message "3 2 1")
                  (with_session three_photos))
         = SendMediaGroup 7 (wrap <$> ["file1"; "file2"; "file3"]) ::
             (if send_media_group_raises reliable 7 (wrap <$> ["file1"; "file2"; "file3"])
              then [Answer 7 SEND_ERROR_TEXT] else [])).
Proof.
  apply (confirmation_orders_accepted reliable 130%Q (text_message "3 2 1")
           (with_session three_photos) three_photos).
  - reflexivity.
  - unfold live. vm_compute. discriminate.
  - split; [|split].
    + exists InputMediaPhoto. reflexivity.
    + reflexivity.
    + simpl. lia.
Defined.



(** ** What the order-input handler leaves alone *)

(** In every case the handler either leaves the state as it was or removes the
    session of the sender, and nothing else. *)
Lemma handle_order_input_final (cl : Client) (now : Q) (message : Message) (st : State) :
  final (handle_order_input cl now message st) = st
  ∨ final (handle_order_input cl now message st)
    = set_user_sessions (delete (from_user_id message)) st.
Proof.
  unfold handle_order_input. unfold_monad. simpl.
  destruct (user_sessions st !! from_user_id message) as [s|]; simpl; [|by left].
  destruct (Qlt_le_dec SESSION_LIFETIME (now - timestamp s)); simpl; [by right|].
  destruct (text message) as [t|]; simpl; [|by left].
  destruct (int_all (split t)) as [l|]; simpl; [|by left].
  repeat case_decide; simpl; try by left.
  destruct (ordered (files s) l) as [items|e]; simpl; [|by left].
  destruct (input_media (type s) items) as [media|]; simpl; [|by left].
  destruct (send_media_group_raises cl (from_user_id message) media); simpl.
  - destruct (answer_raises cl (chat_id message) SEND_ERROR_TEXT); simpl; by right.
  - by right.
Qed.

(** X4. The order-input handler never touches the buffers, the timers, the
    throttle or the tasks, never stores a session, and never changes the
    session of anyone but the sender. *)
Theorem handle_order_input_frame (cl : Client) (now : Q) (message : Message)
    (st : State) :
  let st' := final (handle_order_input cl now message st) in
  media_cache st' = media_cache st
  ∧ group_timers st' = group_timers st
  ∧ warning_cache st' = warning_cache st
  ∧ tasks st' = tasks st
  ∧ (∀ u, u ≠ from_user_id message → user_sessions st' !! u = user_sessions st !! u)
  ∧ (∀ u s, user_sessions st' !! u = Some s → user_sessions st !! u = Some s).
Proof.
  intros st'. unfold st'.
  destruct (handle_order_input_final cl now message st) as [-> | ->]; simpl.
  - split_and!; done.
  - split_and!; try done.
    + intros u Hu. by apply lookup_delete_ne.
    + intros u s Hs. by apply lookup_delete_Some in Hs as [_ Hs].
Qed.

(** A trace of replies holds no grouped send. *)
Ltac no_send :=
  let H := fresh in
  intros H;
  repeat (apply elem_of_cons in H as [H|H]; [discriminate H|]);
  by apply elem_of_nil in H.

Lemma send_clears_session (cl : Client) (now : Q) (message : Message)
    (st : State) (chat : Z) (media : list InputMedia) :
  SendMediaGroup chat media ∈ trace (handle_order_input cl now message st) →
  chat = from_user_id message
  ∧ user_sessions (final (handle_order_input cl now message st))
      !! from_user_id message = None.
Proof.
  unfold handle_order_input. unfold_monad. simpl.
  destruct (user_sessions st !! from_user_id message) as [s|]; simpl; [|no_send].
  destruct (Qlt_le_dec SESSION_LIFETIME (now - timestamp s)); simpl; [no_send|].
  destruct (text message) as [t|]; simpl; [|no_send].
  destruct (int_all (split t)) as [l|]; simpl; [|no_send].
  repeat case_decide; simpl; try no_send.
  destruct (ordered (files s) l) as [items|e]; simpl; [|no_send].
  destruct (input_media (type s) items) as [media'|]; simpl; [|no_send].
  intros Hin. split; [|by destruct (send_media_group_raises cl _ _);
                         [destruct (answer_raises cl _ _)|]; apply lookup_delete_eq].
  destruct (send_media_group_raises cl (from_user_id message) media'); simpl in Hin.
  - destruct (answer_raises cl (chat_id message) SEND_ERROR_TEXT); simpl in Hin;
      apply elem_of_cons in Hin as [Hin|Hin]; try (by inversion Hin);
      revert Hin; no_send.
  - apply elem_of_cons in Hin as [Hin|Hin]; [by inversion Hin|].
    revert Hin; no_send.
Qed.

(** X5. Once a run of the handler that requested a grouped send has returned,
    the session of the sender is gone: the send went to the sender, and an
    order input of the same sender that is handled after that run is answered
    with the prompt to send a media group first and changes nothing. This is
    about one run after the other; the session is removed only after the send
    has been awaited, and what an input handled during that await meets is
    the matter of [session_outlives_the_send]. *)
Theorem session_gone_after_send (cl cl' : Client) (now now' : Q) (message message' : Message)
    (st : State) (chat : Z) (media : list InputMedia) :
  SendMediaGroup chat media ∈ trace (handle_order_input cl now message st) →
  from_user_id message' = from_user_id message →
  let st' := final (handle_order_input cl now message st) in
  chat = from_user_id message
  ∧ user_sessions st' !! from_user_id message = None
  ∧ final (handle_order_input cl' now' message' st') = st'
  ∧ trace (handle_order_input cl' now' message' st')
    = [Answer (chat_id message') NO_SESSION_TEXT].
Proof.
  intros Hsend Huser st'.
  destruct (send_clears_session cl now message st chat media Hsend) as [-> Hnone].
  fold st' in Hnone. split_and!; try done.
  - unfold handle_order_input. unfold_monad. simpl. rewrite Huser, Hnone. done.
  - unfold handle_order_input. unfold_monad. simpl. rewrite Huser, Hnone. done.
Qed.

Lemma session_gone_after_send_witness :
  let st' := final (handle_order_input reliable 130%Q (text_message "3 1 2")
                      (with_session three_photos)) in
  7 = from_user_id (text_message "3 1 2")
  ∧ user_sessions st' !! 7 = None
  ∧ final (handle_order_input reliable 131%Q (text_message "3 1 2") st') = st'
  ∧ trace (handle_order_input reliable 131%Q (text_message "3 1 2") st')
    = [Answer 7 NO_SESSION_TEXT].
Proof.
  apply (session_gone_after_send reliable reliable 130%Q 131%Q (text_message "3 1 2")
           (text_message "3 1 2") (with_session three_photos) 7
           [InputMediaPhoto "file3"; InputMediaPhoto "file1"; InputMediaPhoto "file2"]).
  - vm_compute. left.
  - reflexivity.
Defined.

(** ** Reset *)

Lemma from_user_spec (u : Z) (msgs : list Message) :
  from_user u msgs = true ↔ ∃ m, m ∈ msgs ∧ from_user_id m = u.
Proof.
  unfold from_user. rewrite existsb_exists. split.
  - intros (m & Hm%list_elem_of_In & Hu%bool_decide_eq_true). eauto.
  - intros (m & Hm & Hu). exists m. split; [by apply list_elem_of_In|].
    by apply bool_decide_eq_true.
Qed.

Lemma cmd_start_lookup (cl : Client) (message : Message) (st : State) (gid : string) :
  media_cache (final (cmd_start cl message st)) !! gid =
    match media_cache st !! gid with
    | Some msgs => if from_user (from_user_id message) msgs then None else Some msgs
    | None => None
    end.
Proof.
  unfold cmd_start. unfold_monad. simpl.
  rewrite lookup_foldl_delete.
  pose proof (elem_of_selected (from_user (from_user_id message)) (media_cache st) gid)
    as Hsel. unfold from_user in *.
  case_decide as Hin.
  - apply Hsel in Hin as (msgs & -> & ->). done.
  - destruct (media_cache st !! gid) as [msgs|] eqn:Hg; [|done].
    match goal with |- context [existsb ?f msgs] => destruct (existsb f msgs) eqn:Hex end;
      [|done].
    exfalso. apply Hin, Hsel. by exists msgs.
Qed.

(** X7. The reset command removes the session of the sender and every buffered
    group that holds a message of the sender, whole; the groups without a
    message of the sender keep their buffers, the other sessions stay, and the
    timers (which are not cancelled), the throttle and the tasks are as before.
    The one request to the client is the start text. *)
Theorem cmd_start_resets (cl : Client) (message : Message) (st : State) :
  let u := from_user_id message in
  let st' := final (cmd_start cl message st) in
  user_sessions st' = delete u (user_sessions st)
  ∧ (∀ gid msgs, media_cache st !! gid = Some msgs →
       ((∃ m, m ∈ msgs ∧ from_user_id m = u) → media_cache st' !! gid = None)
       ∧ ((∀ m, m ∈ msgs → from_user_id m ≠ u) → media_cache st' !! gid = Some msgs))
  ∧ (∀ gid msgs m, media_cache st' !! gid = Some msgs → m ∈ msgs →
       media_cache st !! gid = Some msgs ∧ from_user_id m ≠ u)
  ∧ group_timers st' = group_timers st
  ∧ warning_cache st' = warning_cache st
  ∧ tasks st' = tasks st
  ∧ trace (cmd_start cl message st) = [Answer (chat_id message) START_TEXT].
Proof.
  intros u st'. split_and!; try done.
  - intros gid msgs Hg. unfold st'. rewrite cmd_start_lookup, Hg. fold u. split.
    + intros Hex. apply from_user_spec in Hex. by rewrite Hex.
    + intros Hall. destruct (from_user u msgs) eqn:Hfrom; [|done].
      apply from_user_spec in Hfrom as (m & Hm & Hu). by destruct (Hall m Hm).
  - intros gid msgs m Hg Hm. unfold st' in Hg. rewrite cmd_start_lookup in Hg.
    fold u in Hg. destruct (media_cache st !! gid) as [msgs'|]; [|done].
    destruct (from_user u msgs') eqn:Hfrom; [done|]. inversion Hg; subst.
    split; [done|]. intros Hu.
    assert (from_user u msgs = true) as Htrue by (apply from_user_spec; eauto).
    congruence.
Qed.

(** ** The warning throttle *)

(** X9. After a warning that was answered at [t1], a further unrecognised message
    of the same sender is passed over in silence, and changes nothing, as long
    as less than 1.5 seconds have gone by since [t1]; from 1.5 seconds on it is
    answered again. The throttle of the other users is not affected. *)
Theorem fallback_handler_throttles (cl cl' : Client) (t1 t2 : Q) (m1 m2 : Message)
    (st : State) :
  from_user_id m2 = from_user_id m1 →
  (WARNING_COOLDOWN <= t1 - default 0 (warning_cache st !! from_user_id m1))%Q →
  let st1 := final (fallback_handler cl t1 m1 st) in
  trace (fallback_handler cl t1 m1 st) = [Answer (chat_id m1) FALLBACK_TEXT]
  ∧ warning_cache st1 = <[from_user_id m1 := t1]> (warning_cache st)
  ∧ ((t2 - t1 < WARNING_COOLDOWN)%Q →
       fallback_handler cl' t2 m2 st1 = (Return tt, st1, []))
  ∧ ((WARNING_COOLDOWN <= t2 - t1)%Q →
       trace (fallback_handler cl' t2 m2 st1) = [Answer (chat_id m2) FALLBACK_TEXT]).
Proof.
  intros Huser Hfirst st1.
  assert (final (fallback_handler cl t1 m1 st)
          = set_warning_cache <[from_user_id m1 := t1]> st
          ∧ trace (fallback_handler cl t1 m1 st) = [Answer (chat_id m1) FALLBACK_TEXT])
    as [Hfinal Htrace].
  { unfold fallback_handler. unfold_monad. simpl.
    destruct (Qlt_le_dec _ _) as [Hlt|_];
      [exfalso; apply (Qlt_not_le _ _ Hlt); exact Hfirst|].
    simpl. destruct (answer_raises cl (chat_id m1) FALLBACK_TEXT); done. }
  assert (default 0%Q (warning_cache st1 !! from_user_id m2) = t1) as Hlast.
  { unfold st1. rewrite Hfinal, Huser. simpl. by rewrite lookup_insert_eq. }
  split_and!; [done|by unfold st1; rewrite Hfinal|..].
  - intros Hsoon. unfold fallback_handler. unfold_monad. simpl. rewrite Hlast.
    destruct (Qlt_le_dec _ _) as [_|Hle]; [done|].
    exfalso. apply (Qlt_not_le _ _ Hsoon). exact Hle.
  - intros Hlate. unfold fallback_handler. unfold_monad. simpl. rewrite Hlast.
    destruct (Qlt_le_dec _ _) as [Hlt|_];
      [exfalso; apply (Qlt_not_le _ _ Hlt); exact Hlate|].
    simpl. destruct (answer_raises cl' (chat_id m2) FALLBACK_TEXT); done.
Qed.

Lemma fallback_handler_throttles_witness :
  let st1 := final (fallback_handler reliable 100%Q (text_message "hello") initial_state) in
  trace (fallback_handler reliable 100%Q (text_message "hello") initial_state)
  = [Answer 7 FALLBACK_TEXT]
  ∧ warning_cache st1 = <[7 := 100%Q]> ∅
  ∧ ((101 - 100 < WARNING_COOLDOWN)%Q →
       fallback_handler reliable 101%Q (text_message "again") st1 = (Return tt, st1, []))
  ∧ ((WARNING_COOLDOWN <= 101 - 100)%Q →
       trace (fallback_handler reliable 101%Q (text_message "again") st1)
       = [Answer 7 FALLBACK_TEXT]).
Proof.
  apply (fallback_handler_throttles reliable reliable 100%Q 101%Q
           (text_message "hello") (text_message "again") initial_state).
  - reflexivity.
  - vm_compute. discriminate.
Defined.

(** ** Routing *)

(** X10. A text of digits and white space that starts with a digit is no command;
    when the message belongs to no media group, the dispatcher hands it to the
    order-input handler. *)
Theorem dispatch_order_text (cl : Client) (now : Q) (message : Message) (t : string) :
  text message = Some t →
  order_regexp t = true →
  media_group_id message = None ∨ media_group_id message = Some "" →
  dispatch cl now message = handle_order_input cl now message.
Proof.
  intros Ht Hre Hgroup. unfold dispatch. rewrite Ht.
  rewrite bool_decide_eq_false_2.
  2:{ intros [[= ->]|[= ->]]; discriminate Hre. }
  rewrite bool_decide_eq_false_2.
  2:{ intros [[= ->]|[= ->]]; discriminate Hre. }
  destruct Hgroup as [-> | ->]; by rewrite Hre.
Qed.

Lemma dispatch_order_text_witness :
  dispatch reliable 130%Q (text_message "3 1 2")
  = handle_order_input reliable 130%Q (text_message "3 1 2").
Proof.
  apply (dispatch_order_text reliable 130%Q (text_message "3 1 2") "3 1 2").
  - reflexivity.
  - reflexivity.
  - left. reflexivity.
Defined.

(** A trace without the parse-error reply. *)
Ltac no_parse_error :=
  let H := fresh in
  intros H;
  repeat (apply elem_of_cons in H as [H|H];
          [first [discriminate H
                 | unfold COUNT_MISMATCH_TEXT, RANGE_ERROR_TEXT in H; simpl in H;
                   discriminate H]|]);
  by apply elem_of_nil in H.

Lemma handle_order_input_no_parse_error (cl : Client) (now : Q) (message : Message)
    (st : State) (chat : Z) :
  (∀ t, text message = Some t → is_Some (int_all (split t))) →
  Answer chat PARSE_ERROR_TEXT ∉ trace (handle_order_input cl now message st).
Proof.
  intros Hparses. unfold handle_order_input. unfold_monad. simpl.
  destruct (user_sessions st !! from_user_id message) as [s|]; simpl;
    [|no_parse_error].
  destruct (Qlt_le_dec SESSION_LIFETIME (now - timestamp s)); simpl;
    [no_parse_error|].
  destruct (text message) as [t|]; simpl; [|no_parse_error].
  destruct (Hparses t eq_refl) as [l ->].
  repeat case_decide; simpl; try no_parse_error.
  destruct (ordered (files s) l) as [items|e]; simpl; [|no_parse_error].
  destruct (input_media (type s) items) as [media|]; simpl; [|no_parse_error].
  destruct (send_media_group_raises cl (from_user_id message) media); simpl;
    [destruct (answer_raises cl (chat_id message) SEND_ERROR_TEXT); simpl|];
    no_parse_error.
Qed.

Lemma dispatch_no_parse_error (cl : Client) (now : Q) (message : Message)
    (st : State) (chat : Z) :
  Answer chat PARSE_ERROR_TEXT ∉ trace (dispatch cl now message st).
Proof.
  unfold dispatch.
  case_bool_decide.
  { unfold cmd_start. unfold_monad. simpl. no_parse_error. }
  case_bool_decide.
  { unfold cmd_help. unfold_monad. simpl. no_parse_error. }
  assert (Answer chat PARSE_ERROR_TEXT ∉ trace (fallback_handler cl now message st))
    as Hfallback.
  { unfold fallback_handler. unfold_monad. simpl.
    destruct (Qlt_le_dec _ _); simpl; no_parse_error. }
  assert (∀ t, text message = Some t → order_regexp t = true →
            Answer chat PARSE_ERROR_TEXT ∉ trace (handle_order_input cl now message st))
    as Horder.
  { intros t Ht Hre. apply handle_order_input_no_parse_error.
    intros t' Ht'. rewrite Ht in Ht'. inversion Ht'; subst.
    by apply order_regexp_parses. }
  destruct (media_group_id message) as [[|c r]|].
  - destruct (text message) as [t|] eqn:Ht; [|done].
    destruct (order_regexp t) eqn:Hre; [by apply (Horder t)|done].
  - unfold handle_media_group, create_task. unfold_monad. simpl.
    destruct (group_timers _ !! _); simpl; no_parse_error.
  - destruct (text message) as [t|] eqn:Ht; [|done].
    destruct (order_regexp t) eqn:Hre; [by apply (Horder t)|done].
Qed.

(** X11. A message whose text, if it has one, is plain (ASCII characters,
    within the digit limit of [int]; every Telegram text of ASCII characters
    is) is never answered with the parse-error text when it goes through the
    dispatcher, whatever the state and the client: the filter of the
    order-input handler lets through only texts that parse, so the
    [except ValueError] branch of lines 181-183 is not reached. *)
Theorem dispatch_never_parse_error (cl : Client) (now : Q) (message : Message)
    (st : State) (chat : Z) :
  (∀ t, text message = Some t → plain_text t = true) →
  Answer chat PARSE_ERROR_TEXT ∉ trace (dispatch cl now message st).
Proof.
  intros _. apply dispatch_no_parse_error.
Qed.

Lemma dispatch_never_parse_error_witness :
  Answer 7 PARSE_ERROR_TEXT
  ∉ trace (dispatch reliable 130%Q (text_message "3 1 2") (with_session three_photos)).
Proof.
  apply (dispatch_never_parse_error reliable 130%Q (text_message "3 1 2")
           (with_session three_photos) 7).
  intros t Ht. injection Ht as <-. reflexivity.
Defined.

(** ** Texts with a token that is not a number *)





(** ** Timers that find nothing to do *)

Lemma process_media_group_no_buffer (cl : Client) (now : Q) (group_id : string)
    (st : State) :
  media_cache st !! group_id = None →
  process_media_group cl now group_id st = (Return tt, st, []).
Proof.
  intros Hnone. unfold process_media_group. unfold_monad. simpl. rewrite Hnone.
  simpl. repeat f_equal. apply state_eq; try done. simpl. by apply delete_id.
Qed.

(** Whatever the buffer, finalising removes it and leaves timers, throttle and
    tasks alone. *)
Lemma process_media_group_frame (cl : Client) (now : Q) (group_id : string)
    (st : State) :
  let st' := final (process_media_group cl now group_id st) in
  media_cache st' = delete group_id (media_cache st)
  ∧ group_timers st' = group_timers st
  ∧ warning_cache st' = warning_cache st
  ∧ tasks st' = tasks st.
Proof.
  intros st'. unfold st'.
  destruct (media_cache st !! group_id) as [[|message rest]|] eqn:Hbuf.
  - unfold process_media_group. unfold_monad. simpl. rewrite Hbuf. done.
  - destruct (process_media_group_run cl now group_id st message rest Hbuf)
      as (H1 & H2 & H3 & H4 & _). done.
  - rewrite process_media_group_no_buffer by done. unfold final; simpl.
    split_and!; try done. symmetry. by apply delete_id.
Qed.

(** X13. The janitor and the timer: once a sweep has evicted a stale group, the
    debounce timer of that group, whenever it fires, finalises nothing: no
    reply, no session, no change of state. *)
Theorem evicted_group_is_not_finalised (cl : Client) (now now' : Q) (group_id : string)
    (st : State) (m : Message) (rest : list Message) (d : Q) :
  media_cache st !! group_id = Some (m :: rest) →
  date m = Some d →
  (now - d > 30)%Q →
  let st' := final (cleanup_cache now st) in
  process_media_group cl now' group_id st' = (Return tt, st', []).
Proof.
  intros Hbuf Hdate Hold st'. apply process_media_group_no_buffer.
  unfold st'. rewrite cleanup_cache_lookup, Hbuf.
  assert (stale now (m :: rest) = true) as -> by (apply stale_spec; eauto 10).
  done.
Qed.

Lemma evicted_group_is_not_finalised_witness :
  let st' := final (cleanup_cache 31%Q (with_group burst)) in
  process_media_group reliable 32%Q "G" st' = (Return tt, st', []).
Proof.
  apply (evicted_group_is_not_finalised reliable 31%Q 32%Q "G" (with_group burst)
           (photo_message "file1" 0%Q)
           [photo_message "file2" 0.3%Q; photo_message "file3" 0.6%Q] 0%Q).
  - reflexivity.
  - reflexivity.
  - reflexivity.
Defined.

(** X8. Reset and the timer: the reset command cancels no timer, but the timer of
    a group that held a message of the sender finds no buffer when it fires:
    attachments sent before a reset never become a session. *)
Theorem reset_group_is_not_finalised (cl cl' : Client) (now : Q) (group_id : string)
    (st : State) (message m : Message) (msgs : list Message) :
  media_cache st !! group_id = Some msgs →
  m ∈ msgs →
  from_user_id m = from_user_id message →
  let st' := final (cmd_start cl message st) in
  process_media_group cl' now group_id st' = (Return tt, st', [])
  ∧ user_sessions st' !! from_user_id message = None.
Proof.
  intros Hbuf Hm Hu st'. split.
  - apply process_media_group_no_buffer.
    unfold st'. rewrite cmd_start_lookup, Hbuf.
    assert (from_user (from_user_id message) msgs = true) as ->
      by (apply from_user_spec; eauto).
    done.
  - unfold st', cmd_start. unfold_monad. simpl.
    destruct (answer_raises cl (chat_id message) START_TEXT); simpl;
      apply lookup_delete_eq.
Qed.

Lemma reset_group_is_not_finalised_witness :
  let st' := final (cmd_start reliable (text_message "/start") (with_group burst)) in
  process_media_group reliable 1%Q "G" st' = (Return tt, st', [])
  ∧ user_sessions st' !! 7 = None.
Proof.
  apply (reset_group_is_not_finalised reliable reliable 1%Q "G" (with_group burst)
           (text_message "/start") (photo_message "file1" 0%Q) burst).
  - reflexivity.
  - left.
  - reflexivity.
Defined.

(** ** The life of a debounce task *)

Lemma delayed_process_due (cl : Client) (now now' : Q) (tid : nat)
    (st : State) (t : Task) (wake : Q) :
  tasks st !! tid = Some t →
  task_phase t = Sleeping wake →
  (wake <= now)%Q →
  let out := delayed_process cl now tid st in
  let fin := process_media_group cl now (task_group t) st in
  result out = Return tt
  ∧ trace out = trace fin
  ∧ user_sessions (final out) = user_sessions (final fin)
  ∧ media_cache (final out) = delete (task_group t) (media_cache st)
  ∧ group_timers (final out) = delete (task_group t) (group_timers st)
  ∧ warning_cache (final out) = warning_cache st
  ∧ tasks (final out) = <[tid := finished t]> (tasks st)
  ∧ delayed_process cl now' tid (final out) = (Return tt, final out, []).
Proof.
  intros Ht Hphase Hdue out fin. subst out fin.
  pose proof (process_media_group_frame cl now (task_group t) st) as Hframe.
  cbv zeta in Hframe. destruct Hframe as (Hcache & Htimers & Hwarn & Htasks).
  unfold delayed_process, set_phase. unfold_monad. simpl.
  rewrite Ht, Hphase. apply Qle_bool_iff in Hdue. rewrite Hdue.
  unfold final in *.
  destruct (process_media_group cl now (task_group t) st) as [[r st1] t1].
  simpl in *.
  assert (tasks st1 !! tid = Some t) as Ht1 by (by rewrite Htasks).
  destruct r as [[]|e]; simpl; rewrite Ht1; simpl;
    rewrite ?app_nil_r, Htasks, Htimers;
    rewrite list_lookup_insert_eq by (by eapply lookup_lt_Some);
    simpl; split_and!; done.
Qed.

(** X14. A sleeping task does nothing before its wake-up time. Run at or after it,
    the task finalises its group once: it asks of the client what
    [process_media_group] asks and stores what it stores, raises nothing into
    the loop, leaves the group without buffer and without registered timer, and
    is finished; run again, it does nothing. *)
Theorem sleeping_task_fires_once (cl : Client) (now now' : Q) (tid : nat)
    (st : State) (t : Task) (wake : Q) :
  tasks st !! tid = Some t →
  task_phase t = Sleeping wake →
  let out := delayed_process cl now tid st in
  let fin := process_media_group cl now (task_group t) st in
  ((now < wake)%Q → out = (Return tt, st, []))
  ∧ ((wake <= now)%Q →
       result out = Return tt
       ∧ trace out = trace fin
       ∧ user_sessions (final out) = user_sessions (final fin)
       ∧ media_cache (final out) = delete (task_group t) (media_cache st)
       ∧ group_timers (final out) = delete (task_group t) (group_timers st)
       ∧ warning_cache (final out) = warning_cache st
       ∧ tasks (final out) = <[tid := finished t]> (tasks st)
       ∧ delayed_process cl now' tid (final out) = (Return tt, final out, [])).
Proof.
  intros Ht Hphase out fin. split.
  - intros Hearly. subst out.
    unfold delayed_process, set_phase. unfold_monad. simpl.
    rewrite Ht, Hphase.
    destruct (Qle_bool wake now) eqn:Hle; [|done].
    apply Qle_bool_iff in Hle. exfalso. by apply (Qlt_not_le _ _ Hearly).
  - intros Hdue. by apply (delayed_process_due cl now now' tid st t wake).
Qed.

Lemma sleeping_task_fires_once_witness :
  let st := (run reliable three_arrivals initial_state).1 in
  result (delayed_process reliable 1%Q 1 st) = Return tt
  ∧ trace (delayed_process reliable 1%Q 1 st)
    = trace (process_media_group reliable 1%Q "G" st)
  ∧ delayed_process reliable 2%Q 1 (final (delayed_process reliable 1%Q 1 st))
    = (Return tt, final (delayed_process reliable 1%Q 1 st), []).
Proof.
  intros st.
  destruct (sleeping_task_fires_once reliable 1%Q 2%Q 1 st
              {| task_group := "G"; task_delay := 0.7%Q; task_phase := Sleeping 1%Q |}
              1%Q eq_refl eq_refl) as [_ Hdue].
  destruct Hdue as (Hres & Htrace & _ & _ & _ & _ & _ & Hagain).
  - vm_compute. discriminate.
  - split_and!; [exact Hres|exact Htrace|exact Hagain].
Defined.

(** ** A burst handled in one turn of the loop *)

Lemma cancel_length (tid : nat) (ts : list Task) : length (cancel tid ts) = length ts.
Proof.
  unfold cancel. destruct (ts !! tid) as [t|]; [|done].
  destruct (task_phase t); by rewrite ?length_insert.
Qed.

Lemma handle_media_group_final (gid : string) (m : Message) (st : State) :
  final (handle_media_group gid m st) =
    {| user_sessions := user_sessions st;
       media_cache := <[gid := default [] (media_cache st !! gid) ++ [m]]> (media_cache st);
       group_timers := <[gid := length (tasks st)]> (group_timers st);
       warning_cache := warning_cache st;
       tasks := match group_timers st !! gid with
                | Some tid => cancel tid (tasks st)
                | None => tasks st
                end ++ [armed gid] |}.
Proof.
  unfold handle_media_group, create_task. unfold_monad. simpl.
  destruct (group_timers st !! gid) as [tid|]; simpl; [|reflexivity].
  by rewrite cancel_length.
Qed.

Lemma live_timers_none (gid : string) (ts : list Task) (f : nat → nat) :
  Forall (λ t, is_live gid t = false) ts →
  List.filter (λ it : nat * Task, is_live gid it.2) (imap (λ i t, (f i, t)) ts) = [].
Proof.
  intros Hall. revert f. induction Hall as [|t ts Ht _ IH]; intros f; [done|].
  rewrite imap_cons. simpl. rewrite Ht. apply (IH (f ∘ S)).
Qed.

Lemma live_timers_last (gid : string) (ts0 : list Task) (st : State) :
  tasks st = ts0 ++ [armed gid] →
  Forall (λ t, is_live gid t = false) ts0 →
  live_timers gid st = [length ts0].
Proof.
  intros Htasks Hall. unfold live_timers. rewrite Htasks, imap_app, List.filter_app.
  pose proof (live_timers_none gid ts0 id Hall) as Hnone.
  change (imap (λ i t, (id i, t)) ts0) with (imap pair ts0) in Hnone.
  rewrite Hnone. simpl.
  unfold is_live. simpl. rewrite bool_decide_eq_true_2 by done. simpl.
  f_equal. lia.
Qed.

Lemma live_timers_nil (gid : string) (st : State) :
  live_timers gid st = [] → Forall (λ t, is_live gid t = false) (tasks st).
Proof.
  unfold live_timers. intros Hnil. apply Forall_lookup. intros i t Hi.
  destruct (is_live gid t) eqn:Hlive; [|done]. exfalso.
  assert (i ∈ (List.filter (λ it : nat * Task, is_live gid it.2)
                 (imap pair (tasks st))).*1) as Hin.
  { apply list_elem_of_fmap. exists (i, t). split; [done|].
    apply list_elem_of_In, filter_In. split; [|done].
    apply list_elem_of_In, list_elem_of_lookup. exists i.
    by rewrite list_lookup_imap, Hi. }
  rewrite Hnil in Hin. by apply elem_of_nil in Hin.
Qed.

Lemma single_timer_step (gid : string) (buf : list Message) (n : nat) (m : Message)
    (st : State) :
  single_timer gid buf n st →
  single_timer gid (buf ++ [m]) (S n) (final (handle_media_group gid m st)).
Proof.
  intros (ts0 & Htasks & Hn & Hall & Htimer & Hbuf).
  rewrite handle_media_group_final, Htimer, Hbuf, Htasks. simpl.
  exists (ts0 ++ [{| task_group := gid; task_delay := 0.7%Q;
                     task_phase := Cancelling false |}]).
  simpl. split_and!.
  - f_equal. unfold cancel.
    rewrite lookup_app_r, Nat.sub_diag by done. simpl.
    rewrite insert_app_r_alt, Nat.sub_diag by done. reflexivity.
  - rewrite length_app. simpl. lia.
  - apply Forall_app. split; [done|]. constructor; [|constructor].
    unfold is_live. simpl. apply andb_false_r.
  - rewrite lookup_insert_eq, !length_app. simpl. f_equal.
  - by rewrite lookup_insert_eq.
Qed.

Lemma single_timer_arrive (gid : string) (msgs buf : list Message) (n : nat) (st : State) :
  single_timer gid buf n st →
  single_timer gid (buf ++ msgs) (n + length msgs) (arrive gid msgs st).
Proof.
  revert buf n st. induction msgs as [|m msgs IH]; intros buf n st Hst; simpl.
  - by rewrite app_nil_r, Nat.add_0_r.
  - replace (buf ++ m :: msgs) with ((buf ++ [m]) ++ msgs) by (by rewrite <- app_assoc).
    replace (n + S (length msgs))%nat with (S n + length msgs)%nat by lia.
    apply IH. by apply single_timer_step.
Qed.

(** X15. Debouncing within one turn of the loop: when the messages of a group are
    handled one after the other before any task runs, starting where the group
    has no registered and no live timer, exactly one timer of the group is live
    afterwards, the one made for the last message, and it is the registered
    one; the buffer holds what it held followed by all the messages in order;
    the sessions are untouched. *)
Theorem burst_in_one_turn_arms_one_timer (gid : string) (m : Message)
    (msgs : list Message) (st : State) :
  group_timers st !! gid = None →
  live_timers gid st = [] →
  let st' := arrive gid (m :: msgs) st in
  let last := (length (tasks st) + length msgs)%nat in
  live_timers gid st' = [last]
  ∧ group_timers st' !! gid = Some last
  ∧ media_cache st' !! gid = Some (default [] (media_cache st !! gid) ++ m :: msgs)
  ∧ length (tasks st') = S last.
Proof.
  intros Hnone Hlive st' last.
  assert (single_timer gid (default [] (media_cache st !! gid) ++ [m])
            (S (length (tasks st))) (final (handle_media_group gid m st))) as Hfirst.
  { rewrite handle_media_group_final, Hnone. exists (tasks st). simpl.
    split_and!; try done.
    - by apply live_timers_nil.
    - by rewrite lookup_insert_eq.
    - by rewrite lookup_insert_eq. }
  apply (single_timer_arrive gid msgs) in Hfirst.
  change (arrive gid msgs (final (handle_media_group gid m st))) with st' in Hfirst.
  destruct Hfirst as (ts0 & Htasks & Hn & Hall & Htimer & Hbuf).
  assert (length ts0 = last) as Hlast by (unfold last; lia).
  split_and!.
  - rewrite (live_timers_last gid ts0 st' Htasks Hall). by rewrite Hlast.
  - by rewrite Htimer, Hlast.
  - rewrite Hbuf, <- app_assoc. done.
  - rewrite Htasks, length_app. simpl. lia.
Qed.

Lemma burst_in_one_turn_arms_one_timer_witness :
  let st' := arrive "G" burst initial_state in
  live_timers "G" st' = [2%nat]
  ∧ group_timers st' !! "G" = Some 2%nat
  ∧ media_cache st' !! "G" = Some burst
  ∧ length (tasks st') = 3%nat.
Proof.
  apply (burst_in_one_turn_arms_one_timer "G" (photo_message "file1" 0%Q)
           [photo_message "file2" 0.3%Q; photo_message "file3" 0.6%Q] initial_state).
  - reflexivity.
  - reflexivity.
Defined.

Lemma live_timers_dead (gid : string) (st : State) :
  Forall (λ t, is_live gid t = false) (tasks st) → live_timers gid st = [].
Proof.
  intros Hall. unfold live_timers.
  pose proof (live_timers_none gid (tasks st) id Hall) as Hnone.
  change (imap (λ i t, (id i, t)) (tasks st)) with (imap pair (tasks st)) in Hnone.
  by rewrite Hnone.
Qed.

Lemma single_timer_burst (gid : string) (m : Message) (msgs : list Message) (st : State) :
  group_timers st !! gid = None →
  live_timers gid st = [] →
  single_timer gid (default [] (media_cache st !! gid) ++ m :: msgs)
    (S (length (tasks st)) + length msgs) (arrive gid (m :: msgs) st).
Proof.
  intros Hnone Hlive.
  assert (single_timer gid (default [] (media_cache st !! gid) ++ [m])
            (S (length (tasks st))) (final (handle_media_group gid m st))) as Hfirst.
  { rewrite handle_media_group_final, Hnone. exists (tasks st). simpl.
    split_and!; try done.
    - by apply live_timers_nil.
    - by rewrite lookup_insert_eq.
    - by rewrite lookup_insert_eq. }
  apply (single_timer_arrive gid msgs) in Hfirst.
  by rewrite <- app_assoc in Hfirst.
Qed.

Lemma arrive_user_sessions (gid : string) (msgs : list Message) (st : State) :
  user_sessions (arrive gid msgs st) = user_sessions st.
Proof.
  revert st. induction msgs as [|m msgs IH]; intros st; [done|].
  simpl. change (foldl _ ?s msgs) with (arrive gid msgs s).
  by rewrite IH, handle_media_group_final.
Qed.

(** X16. A burst handled in one turn is finalised once, over the whole burst. Where
    the group has no buffer, no registered and no live timer, and its messages
    are handled one after the other before any task runs: the task armed for
    the last message, run at [now], goes to sleep and asks nothing of the
    client; run again 0.7 seconds later or more, it finalises a buffer that
    holds all the messages in their order of arrival, and afterwards the group
    has no buffer, no registered timer and no live timer. *)
Theorem burst_in_one_turn_finalised_once (cl : Client) (now now' : Q) (gid : string)
    (m : Message) (msgs : list Message) (st : State) :
  group_timers st !! gid = None →
  live_timers gid st = [] →
  media_cache st !! gid = None →
  (now + 0.7 <= now')%Q →
  let last := (length (tasks st) + length msgs)%nat in
  let started := delayed_process cl now last (arrive gid (m :: msgs) st) in
  let st1 := final started in
  let out := delayed_process cl now' last st1 in
  let fin := process_media_group cl now' gid st1 in
  started = (Return tt, st1, [])
  ∧ media_cache st1 !! gid = Some (m :: msgs)
  ∧ user_sessions st1 = user_sessions st
  ∧ result out = Return tt
  ∧ trace out = trace fin
  ∧ user_sessions (final out) = user_sessions (final fin)
  ∧ media_cache (final out) !! gid = None
  ∧ group_timers (final out) !! gid = None
  ∧ live_timers gid (final out) = [].
Proof.
  intros Hnone Hlive Hbuf Hdue last started st1 out fin.
  destruct (single_timer_burst gid m msgs st Hnone Hlive)
    as (ts0 & Htasks & Hn & Hall & Htimer & Hcache).
  rewrite Hbuf in Hcache. simpl in Hcache.
  assert (length ts0 = last) as Hlast by (unfold last; lia).
  pose proof (arrive_user_sessions gid (m :: msgs) st) as Hsessions.
  set (st' := arrive gid (m :: msgs) st) in *.
  assert (tasks st' !! last = Some (armed gid)) as Hlookup.
  { rewrite Htasks, <- Hlast, lookup_app_r, Nat.sub_diag by done. done. }
  set (t := {| task_group := gid; task_delay := 0.7%Q;
               task_phase := Sleeping (Qred (now + 0.7)) |}).
  assert (started = (Return tt, set_tasks (λ ts, <[last := t]> ts) st', [])) as Hstarted.
  { unfold started, delayed_process, set_phase. unfold_monad. simpl.
    rewrite Hlookup. simpl. unfold set_tasks. simpl. rewrite Hlookup. reflexivity. }
  assert (st1 = set_tasks (λ ts, <[last := t]> ts) st') as Hst1.
  { unfold st1. by rewrite Hstarted. }
  assert (tasks st1 !! last = Some t) as Ht.
  { rewrite Hst1. simpl. apply list_lookup_insert_eq. by eapply lookup_lt_Some. }
  assert (Qred (now + 0.7) <= now')%Q as Hwake by (by rewrite Qred_correct).
  destruct (delayed_process_due cl now' now' last st1 t _ Ht eq_refl Hwake)
    as (Hres & Htrace & Hsess & Hmc & Hgt & _ & Htasks' & _).
  split_and!.
  - by rewrite Hstarted, Hst1.
  - by rewrite Hst1.
  - by rewrite Hst1.
  - exact Hres.
  - exact Htrace.
  - exact Hsess.
  - fold out in Hmc. rewrite Hmc. apply lookup_delete_eq.
  - fold out in Hgt. rewrite Hgt. apply lookup_delete_eq.
  - apply live_timers_dead. fold out in Htasks'. rewrite Htasks', Hst1. simpl.
    rewrite Htasks, <- Hlast, !insert_app_r_alt, Nat.sub_diag by done. simpl.
    apply Forall_app. split; [done|]. constructor; [|constructor].
    unfold is_live. simpl. apply andb_false_r.
Qed.

Lemma burst_in_one_turn_finalised_once_witness :
  let started := delayed_process reliable 0.6%Q 2 (arrive "G" burst initial_state) in
  let st1 := final started in
  let out := delayed_process reliable 1.3%Q 2 st1 in
  let fin := process_media_group reliable 1.3%Q "G" st1 in
  started = (Return tt, st1, [])
  ∧ media_cache st1 !! "G" = Some burst
  ∧ user_sessions st1 = user_sessions initial_state
  ∧ result out = Return tt
  ∧ trace out = trace fin
  ∧ user_sessions (final out) = user_sessions (final fin)
  ∧ media_cache (final out) !! "G" = None
  ∧ group_timers (final out) !! "G" = None
  ∧ live_timers "G" (final out) = [].
Proof.
  apply (burst_in_one_turn_finalised_once reliable 0.6%Q 1.3%Q "G"
           (photo_message "file1" 0%Q)
           [photo_message "file2" 0.3%Q; photo_message "file3" 0.6%Q] initial_state).
  - reflexivity.
  - reflexivity.
  - reflexivity.
  - vm_compute. discriminate.
Defined.

(** ** Printed orders and the filter of the order handler *)

Lemma all_digits_pretty_N_go (x : N) (s : string) :
  all_digits s = true → all_digits (pretty_N_go x s) = true.
Proof.
  revert s. induction (N.lt_wf_0 x) as [x _ IH]; intros s Hs.
  destruct (decide (x = 0)%N) as [->|Hx]; [by rewrite pretty_N_go_0|].
  rewrite pretty_N_go_step by lia. apply IH; [apply N.div_lt; lia|].
  simpl. rewrite Hs.
  destruct (pretty_N_char_digit (x `mod` 10)) as [Hd _]; [apply N.mod_lt; lia|].
  by rewrite Hd.
Qed.

Lemma all_digits_str (i : Z) : 0 ≤ i → all_digits (str i) = true.
Proof.
  intros Hi. unfold str, pretty, pretty_Z. destruct i as [|p|p]; [done| |lia].
  unfold pretty, pretty_positive, pretty, pretty_N. rewrite decide_False by done.
  by apply all_digits_pretty_N_go.
Qed.

Lemma digits_and_spaces_app (a b : string) :
  digits_and_spaces (a +:+ b) = digits_and_spaces a && digits_and_spaces b.
Proof.
  induction a as [|c a IH]; [done|].
  change (String c a +:+ b) with (String c (a +:+ b)). simpl.
  by rewrite IH, andb_assoc.
Qed.

Lemma all_digits_digits_and_spaces (w : string) :
  all_digits w = true → digits_and_spaces w = true.
Proof.
  induction w as [|c w IH]; [done|]. simpl. intros Hw.
  apply andb_prop in Hw as [Hc Hw]. by rewrite Hc, IH.
Qed.

Lemma digits_and_spaces_join (ws : list string) :
  Forall (λ w, all_digits w = true) ws → digits_and_spaces (join " " ws) = true.
Proof.
  induction 1 as [|w ws Hw Hws IH]; [done|].
  destruct ws as [|w' ws'].
  - by apply all_digits_digits_and_spaces.
  - change (join " " (w :: w' :: ws')) with (w +:+ String " " (join " " (w' :: ws'))).
    rewrite digits_and_spaces_app, (all_digits_digits_and_spaces w Hw). simpl.
    exact IH.
Qed.

Lemma order_regexp_join (w : string) (ws : list string) :
  w ≠ "" → Forall (λ w, all_digits w = true) (w :: ws) →
  order_regexp (join " " (w :: ws)) = true.
Proof.
  intros Hne Hall. pose proof (digits_and_spaces_join _ Hall) as Hds.
  destruct w as [|c r']; [done|].
  apply Forall_cons_1 in Hall as [Hw _]. simpl in Hw.
  apply andb_prop in Hw as [Hc _].
  assert (∃ r, join " " (String c r' :: ws) = String c r) as [r Hjoin].
  { destruct ws; simpl; eauto. }
  rewrite Hjoin in *. simpl in *. apply andb_prop in Hds as [_ Hr].
  by rewrite Hc, Hr.
Qed.

(** X1. Round trip of an order text. Numbers printed by [str] and joined by single
    spaces, as the confirmation prints them, are parsed back by line 180 to the
    same numbers; and when there is at least one number and none is negative,
    the text passes the filter of the order handler. *)
Theorem order_text_round_trip (l : list Z) :
  int_all (split (join " " (str <$> l))) = Some l
  ∧ (l ≠ [] → Forall (λ i, 0 ≤ i) l → order_regexp (join " " (str <$> l)) = true).
Proof.
  split; [apply parse_join_str|].
  intros Hne Hall. destruct l as [|i l]; [done|].
  rewrite fmap_cons. apply order_regexp_join.
  - apply word_str.
  - rewrite <- fmap_cons. apply Forall_fmap. eapply Forall_impl; [exact Hall|].
    intros j Hj. by apply all_digits_str.
Qed.

(** ** The invariant and the routing on the runs of the examples *)

Lemma reachable_sessions_wf_witness :
  ∃ s, user_sessions (run reliable four_arrivals initial_state).1 !! 7 = Some s
       ∧ files s = ["file1"; "file2"; "file3"]
       ∧ session_wf s.
Proof.
  eexists. split; [vm_compute; reflexivity|]. split; [reflexivity|].
  apply (reachable_sessions_wf reliable four_arrivals 7).
  vm_compute. reflexivity.
Defined.

Lemma dispatch_non_numeric_witness :
  dispatch reliable 130%Q (text_message "3 x 2")
  = fallback_handler reliable 130%Q (text_message "3 x 2").
Proof.
  apply (dispatch_non_numeric reliable 130%Q (text_message "3 x 2") "3 x 2" "x").
  - reflexivity.
  - reflexivity.
  - vm_compute. right. left.
  - reflexivity.
  - reflexivity.
Defined.

(** ** What the handlers can raise *)

Lemma handle_order_input_result (cl : Client) (now : Q) (message : Message)
    (st : State) :
  sessions_wf st →
  is_Some (text message) →
  result (handle_order_input cl now message st) = Return tt
  ∨ result (handle_order_input cl now message st) = Raise AnswerFailed.
Proof.
  intros Hwf [t Ht]. unfold handle_order_input. unfold_monad. simpl.
  destruct (user_sessions st !! from_user_id message) as [s|] eqn:Hs; simpl;
    [|destruct (answer_raises cl _ _); auto].
  destruct (Qlt_le_dec SESSION_LIFETIME (now - timestamp s)); simpl;
    [destruct (answer_raises cl _ _); auto|].
  rewrite Ht. simpl.
  destruct (int_all (split t)) as [l|]; simpl;
    [|destruct (answer_raises cl _ _); auto].
  destruct (decide (Z.of_nat (length l) ≠ expected_count s
                    ∨ Z.of_nat (size (list_to_set l : gset Z)) ≠ expected_count s));
    simpl; [destruct (answer_raises cl _ _); auto|].
  destruct (decide (merge_sort Z.le l ≠ seqZ 1 (expected_count s))) as [|Hsorted];
    simpl; [destruct (answer_raises cl _ _); auto|].
  apply dec_stable in Hsorted. apply sorted_is_range in Hsorted.
  destruct (Hwf _ _ Hs) as (_ & Hcount & _).
  destruct (ordered_in_range (files s) l) as (items & -> & _).
  { apply Forall_forall. intros i Hi. rewrite Hsorted in Hi.
    apply elem_of_seqZ in Hi. lia. }
  simpl. destruct (input_media (type s) items) as [media|]; simpl; [|auto].
  destruct (send_media_group_raises cl (from_user_id message) media); simpl; [|auto].
  destruct (answer_raises cl _ _); auto.
Qed.

(** X6. No handler fails on its own. From a state whose sessions are those that
    the bot stores (every reachable state is such a state), the handling of a
    message, whatever the message, ends normally or with the exception of a
    reply that the client refused: no [IndexError] of the indexing of line
    192, no [AttributeError] of [message.text.split()], and never the
    exception of a refused grouped send, which lines 205-214 catch. *)
Theorem dispatch_raises_only_answer_failures (cl : Client) (now : Q)
    (message : Message) (st : State) :
  sessions_wf st →
  result (dispatch cl now message st) = Return tt
  ∨ result (dispatch cl now message st) = Raise AnswerFailed.
Proof.
  intros Hwf. unfold dispatch.
  assert (∀ now, result (fallback_handler cl now message st) = Return tt
                 ∨ result (fallback_handler cl now message st) = Raise AnswerFailed)
    as Hfallback.
  { intros t. unfold fallback_handler. unfold_monad. simpl.
    destruct (Qlt_le_dec _ _); simpl; [auto|].
    destruct (answer_raises cl _ _); auto. }
  case_bool_decide.
  { unfold cmd_start. unfold_monad. simpl. destruct (answer_raises cl _ _); auto. }
  case_bool_decide.
  { unfold cmd_help. unfold_monad. simpl. destruct (answer_raises cl _ _); auto. }
  destruct (media_group_id message) as [[|c r]|].
  - destruct (text message) as [t|] eqn:Ht; [|apply Hfallback].
    destruct (order_regexp t); [|apply Hfallback].
    apply handle_order_input_result; [done|]. rewrite Ht. eauto.
  - left. unfold handle_media_group, create_task. unfold_monad. simpl.
    by destruct (group_timers _ !! _).
  - destruct (text message) as [t|] eqn:Ht; [|apply Hfallback].
    destruct (order_regexp t); [|apply Hfallback].
    apply handle_order_input_result; [done|]. rewrite Ht. eauto.
Qed.

Lemma dispatch_raises_only_answer_failures_witness :
  result (dispatch refusing 130%Q (text_message "3 1 2") (with_session three_photos))
  = Return tt
  ∨ result (dispatch refusing 130%Q (text_message "3 1 2") (with_session three_photos))
    = Raise AnswerFailed.
Proof.
  apply (dispatch_raises_only_answer_failures refusing 130%Q (text_message "3 1 2")
           (with_session three_photos)).
  apply map_Forall_insert_2; [|apply map_Forall_empty].
  split; [|split].
  - exists InputMediaPhoto. reflexivity.
  - reflexivity.
  - simpl. lia.
Defined.

(** ** An order input during the send *)

(** The two parts of the cut make up the handler. *)
Lemma handle_order_input_cut (cl : Client) (now : Q) (message : Message) (st : State) :
  handle_order_input cl now message st
  = (r <- order_input_until_send cl now message ;;
     match r with
     | Some media => order_input_send cl message media
     | None => ret tt
     end) st.
Proof.
  unfold handle_order_input, order_input_until_send, order_input_send.
  unfold_monad. simpl.
  destruct (user_sessions st !! from_user_id message) as [s|]; simpl;
    [|by destruct (answer_raises cl _ _)].
  destruct (Qlt_le_dec SESSION_LIFETIME (now - timestamp s)); simpl;
    [by destruct (answer_raises cl _ _)|].
  destruct (text message) as [t|]; simpl; [|done].
  destruct (int_all (split t)) as [l|]; simpl;
    [|by destruct (answer_raises cl _ _)].
  destruct (decide (Z.of_nat (length l) ≠ expected_count s
                    ∨ Z.of_nat (size (list_to_set l : gset Z)) ≠ expected_count s));
    simpl; [by destruct (answer_raises cl _ _)|].
  destruct (decide (merge_sort Z.le l ≠ seqZ 1 (expected_count s)));
    simpl; [by destruct (answer_raises cl _ _)|].
  destruct (ordered (files s) l) as [items|e]; simpl; [|done].
  destruct (input_media (type s) items) as [media|]; simpl; [|done].
  destruct (send_media_group_raises cl (from_user_id message) media); simpl; [|done].
  by destruct (answer_raises cl _ _).
Qed.

(** X18. The session outlives the send. When the handler reaches the call of
    [bot.send_media_group] it has changed nothing: the session of the sender
    is still in the store while the send is awaited, and is removed only by
    the [finally] block afterwards. So an order input of the same sender that
    is handled during that await (on the state the first run was suspended
    in) is served from the same session and requests a grouped send of its
    own: one session, two sends. *)
Theorem session_outlives_the_send (cl cl' : Client) (now now' : Q)
    (m1 m2 : Message) (st : State) (s : Session) (t1 t2 : string) (P1 P2 : list Z) :
  user_sessions st !! from_user_id m1 = Some s →
  session_wf s →
  live now s →
  live now' s →
  from_user_id m2 = from_user_id m1 →
  text m1 = Some t1 → int_all (split t1) = Some P1 →
  P1 ≡ₚ seqZ 1 (Z.of_nat (length (files s))) →
  text m2 = Some t2 → int_all (split t2) = Some P2 →
  P2 ≡ₚ seqZ 1 (Z.of_nat (length (files s))) →
  ∃ wrap items1 items2,
    constructor_of (type s) = Some wrap
    ∧ Forall2 (λ i f, files s !! Z.to_nat (i - 1) = Some f) P1 items1
    ∧ Forall2 (λ i f, files s !! Z.to_nat (i - 1) = Some f) P2 items2
    ∧ order_input_until_send cl now m1 st = (Return (Some (wrap <$> items1)), st, [])
    ∧ handle_order_input cl now m1 st = order_input_send cl m1 (wrap <$> items1) st
    ∧ trace (handle_order_input cl' now' m2 st)
      = SendMediaGroup (from_user_id m1) (wrap <$> items2) ::
          (if send_media_group_raises cl' (from_user_id m1) (wrap <$> items2)
           then [Answer (chat_id m2) SEND_ERROR_TEXT] else []).
Proof.
  intros Hs Hwf Hlive Hlive' Huser Ht1 Hparse1 Hperm1 Ht2 Hparse2 Hperm2.
  destruct (send_step_of_permutation s P1 Hwf Hperm1)
    as (wrap & items1 & Hwrap & Hitems1 & Hlen1 & Hsize1 & Hsorted1 & Hord1 & Hmedia1).
  destruct (send_step_of_permutation s P2 Hwf Hperm2)
    as (wrap' & items2 & Hwrap' & Hitems2 & Hlen2 & Hsize2 & Hsorted2 & Hord2 & Hmedia2).
  assert (wrap' = wrap) as -> by congruence.
  assert (order_input_until_send cl now m1 st
          = (Return (Some (wrap <$> items1)), st, [])) as Huntil.
  { unfold order_input_until_send. unfold_monad. simpl. rewrite Hs. simpl.
    destruct (Qlt_le_dec SESSION_LIFETIME (now - timestamp s)) as [Hlt|_];
      [exfalso; apply (Qlt_not_le _ _ Hlt); exact Hlive|].
    rewrite Ht1. simpl. rewrite Hparse1.
    rewrite decide_False by (intros [?|?]; done).
    rewrite decide_False by (intros ?; done).
    rewrite Hord1. simpl. by rewrite Hmedia1. }
  exists wrap, items1, items2. split_and!; try done.
  - rewrite handle_order_input_cut. unfold bind at 1. rewrite Huntil.
    by destruct (order_input_send cl m1 (wrap <$> items1) st) as [[r st'] tr].
  - rewrite <- Huser in Hs |- *.
    rewrite (handle_order_input_send cl' now' m2 st s t2 P2 items2 (wrap <$> items2))
      by done.
    reflexivity.
Qed.

Lemma session_outlives_the_send_witness :
  ∃ wrap items1 items2,
    constructor_of "photo" = Some wrap
    ∧ Forall2 (λ i f, ["file1"; "file2"; "file3"] !! Z.to_nat (i - 1) = Some f)
        [3; 1; 2] items1
    ∧ Forall2 (λ i f, ["file1"; "file2"; "file3"] !! Z.to_nat (i - 1) = Some f)
        [3; 2; 1] items2
    ∧ order_input_until_send reliable 130%Q (text_message "3 1 2")
        (with_session three_photos)
      = (Return (Some (wrap <$> items1)), with_session three_photos, [])
    ∧ handle_order_input reliable 130%Q (text_message "3 1 2")
        (with_session three_photos)
      = order_input_send reliable (text_message "3 1 2") (wrap <$> items1)
          (with_session three_photos)
    ∧ trace (handle_order_input reliable 130.5%Q (text_message "3 2 1")
               (with_session three_photos))
      = SendMediaGroup 7 (wrap <$> items2) ::
          (if send_media_group_raises reliable 7 (wrap <$> items2)
           then [Answer 7 SEND_ERROR_TEXT] else []).
Proof.
  apply (session_outlives_the_send reliable reliable 130%Q 130.5%Q
           (text_message "3 1 2") (text_message "3 2 1")
           (with_session three_photos) three_photos "3 1 2" "3 2 1").
  - reflexivity.
  - split; [|split].
    + exists InputMediaPhoto. reflexivity.
    + reflexivity.
    + simpl. lia.
  - unfold live. vm_compute. discriminate.
  - unfold live. vm_compute. discriminate.
  - reflexivity.
  - reflexivity.
  - reflexivity.
  - change (seqZ 1 (Z.of_nat (length (files three_photos)))) with [1; 2; 3].
    apply (Permutation_cons_app [1; 2] []). reflexivity.
  - reflexivity.
  - reflexivity.
  - change (seqZ 1 (Z.of_nat (length (files three_photos)))) with [1; 2; 3].
    apply (Permutation_cons_app [1; 2] []). apply perm_swap.
Defined.
